(** * matcher: gitignore-style glob validation, normalisation and matching

    A shallow embedding of the Go package [matcher] (check.go, matcher.go).

    Data model.  A Go [string] is a sequence of bytes; it is embedded as a
    Rocq [string] (a sequence of 8-bit [ascii]), so a literal of this file
    holds the same UTF-8 bytes as the Go literal.  A [rune] is an [int32],
    embedded as a [Z].  [for _, r := range s] decodes UTF-8 ([utf8.runes]);
    [bytes.Buffer.WriteRune] encodes it ([utf8.AppendRune]).  The functions
    of the Go standard library that the package calls (unicode/utf8,
    strings, path/filepath on Unix) are embedded in modules of their own,
    from their Go definitions. *)

From Stdlib Require Import ZArith Lia Bool List String Ascii.
Import ListNotations.
Open Scope string_scope.
Open Scope list_scope.
Open Scope Z_scope.

Definition rune := Z.

(** The value of a byte, and Go's conversion [byte(x)], which keeps the low
    eight bits. *)
Definition byte_val (c : ascii) : Z := Z.of_N (N_of_ascii c).
Definition to_byte (z : Z) : ascii := ascii_of_N (Z.to_N (z mod 256)).

(** Go's conversions [uint32(x)] and [int32(x)]. *)
Definition uint32 (z : Z) : Z := z mod 2 ^ 32.
Definition int32 (z : Z) : Z := (z + 2 ^ 31) mod 2 ^ 32 - 2 ^ 31.

(** [s[n:]] for [n <= len(s)]. *)
Fixpoint drop (n : nat) (s : string) : string :=
  match n, s with
  | S n', String _ s' => drop n' s'
  | _, _ => s
  end.

Definition str_length (s : string) : nat := String.length s.

(** ** unicode/utf8 *)
Module utf8.

Definition RuneError : rune := 65533.      (* U+FFFD *)
Definition MaxRune : rune := 1114111.      (* U+10FFFF *)
Definition surrogateMin : Z := 55296.      (* 0xD800 *)
Definition surrogateMax : Z := 57343.      (* 0xDFFF *)

Definition t2 : Z := 192.    (* 1100 0000 *)
Definition t3 : Z := 224.    (* 1110 0000 *)
Definition t4 : Z := 240.    (* 1111 0000 *)
Definition tx : Z := 128.    (* 1000 0000 *)
Definition maskx : Z := 63.  (* 0011 1111 *)
Definition mask2 : Z := 31.  (* 0001 1111 *)
Definition mask3 : Z := 15.  (* 0000 1111 *)
Definition mask4 : Z := 7.   (* 0000 0111 *)
Definition locb : Z := 128.
Definition hicb : Z := 191.

(** The table [first] together with [acceptRanges]: what a first byte
    announces. *)
Inductive lead :=
| AS                                  (* ASCII, size 1 *)
| XX                                  (* invalid, size 1 *)
| SZ (size : nat) (lo hi : Z).        (* size and accepted second byte *)

Definition first (b : Z) : lead :=
  if b <? 128 then AS
  else if b <? 194 then XX
  else if b <? 224 then SZ 2 locb hicb
  else if b =? 224 then SZ 3 160 hicb
  else if b <? 237 then SZ 3 locb hicb
  else if b =? 237 then SZ 3 locb 159
  else if b <? 240 then SZ 3 locb hicb
  else if b =? 240 then SZ 4 144 hicb
  else if b <? 244 then SZ 4 locb hicb
  else if b =? 244 then SZ 4 locb 143
  else XX.

(** [utf8.DecodeRuneInString]: the first rune of [s] and its width in
    bytes. *)
Definition DecodeRuneInString (s : string) : rune * nat :=
  match s with
  | EmptyString => (RuneError, 0%nat)
  | String c0 s1 =>
    let p0 := byte_val c0 in
    match first p0 with
    | AS => (p0, 1%nat)
    | XX => (RuneError, 1%nat)
    | SZ sz lo hi =>
      if (str_length s <? sz)%nat then (RuneError, 1%nat) else
      match s1 with
      | EmptyString => (RuneError, 1%nat)
      | String c1 s2 =>
        let b1 := byte_val c1 in
        if (b1 <? lo) || (hi <? b1) then (RuneError, 1%nat) else
        if (sz <=? 2)%nat then
          (Z.lor (Z.shiftl (Z.land p0 mask2) 6) (Z.land b1 maskx), 2%nat)
        else
        match s2 with
        | EmptyString => (RuneError, 1%nat)
        | String c2 s3 =>
          let b2 := byte_val c2 in
          if (b2 <? locb) || (hicb <? b2) then (RuneError, 1%nat) else
          if (sz <=? 3)%nat then
            (Z.lor (Z.lor (Z.shiftl (Z.land p0 mask3) 12)
                          (Z.shiftl (Z.land b1 maskx) 6))
                   (Z.land b2 maskx), 3%nat)
          else
          match s3 with
          | EmptyString => (RuneError, 1%nat)
          | String c3 _ =>
            let b3 := byte_val c3 in
            if (b3 <? locb) || (hicb <? b3) then (RuneError, 1%nat) else
            (Z.lor (Z.lor (Z.lor (Z.shiftl (Z.land p0 mask4) 18)
                                 (Z.shiftl (Z.land b1 maskx) 12))
                          (Z.shiftl (Z.land b2 maskx) 6))
                   (Z.land b3 maskx), 4%nat)
          end
        end
      end
    end
  end.

(** [for _, r := range s]: the runes of [s] in order.  Every iteration
    decodes one rune at the current offset and advances by its width; an
    invalid byte yields [RuneError] and advances by one. *)
Fixpoint runes (s : string) : list rune :=
  match s with
  | EmptyString => []
  | String _ s1 =>
    let '(r, n) := DecodeRuneInString s in
    r :: match n, s1 with
         | S (S k), String _ s2 =>
           match k, s2 with
           | S k', String _ s3 =>
             match k', s3 with
             | S _, String _ s4 => runes s4
             | _, _ => runes s3
             end
           | _, _ => runes s2
           end
         | _, _ => runes s1
         end
  end.

(** [utf8.AppendRune] on an empty slice: the UTF-8 encoding of [r], the
    bytes that [bytes.Buffer.WriteRune] appends. *)
Definition enc3 (r : rune) : string :=
  String (to_byte (Z.lor t3 (byte_val (to_byte (Z.shiftr r 12)))))
  (String (to_byte (Z.lor tx (Z.land (byte_val (to_byte (Z.shiftr r 6))) maskx)))
  (String (to_byte (Z.lor tx (Z.land (byte_val (to_byte r)) maskx)))
   EmptyString)).

Definition AppendRune (r : rune) : string :=
  let i := uint32 r in
  if i <=? 127 then String (to_byte r) EmptyString
  else if i <=? 2047 then
    String (to_byte (Z.lor t2 (byte_val (to_byte (Z.shiftr r 6)))))
    (String (to_byte (Z.lor tx (Z.land (byte_val (to_byte r)) maskx)))
     EmptyString)
  else if (MaxRune <? i) || ((surrogateMin <=? i) && (i <=? surrogateMax))
  then enc3 RuneError
  else if i <=? 65535 then enc3 r
  else
    String (to_byte (Z.lor t4 (byte_val (to_byte (Z.shiftr r 18)))))
    (String (to_byte (Z.lor tx (Z.land (byte_val (to_byte (Z.shiftr r 12))) maskx)))
    (String (to_byte (Z.lor tx (Z.land (byte_val (to_byte (Z.shiftr r 6))) maskx)))
    (String (to_byte (Z.lor tx (Z.land (byte_val (to_byte r)) maskx)))
     EmptyString))).

(** The runes a decoder can produce: Unicode scalar values. *)
Definition valid (r : rune) : Prop :=
  0 <= r <= MaxRune /\ ~ (surrogateMin <= r <= surrogateMax).

End utf8.

(** ** strings *)
Module strings.

(** [strings.Contains(s, "/")] and the like, for a one-byte substring. *)
Fixpoint ContainsByte (s : string) (c : ascii) : bool :=
  match s with
  | EmptyString => false
  | String a s' => Ascii.eqb a c || ContainsByte s' c
  end.

End strings.

(** * check.go *)

(** The error variables that [Check] returns inside a [BadPatternError]. *)
Inductive PatternErr :=
| ErrUnexpectedRune
| ErrNegativeRange
| ErrDualStar
| ErrEmptyClass
| ErrEmptyGlob
| ErrIncompleteClass
| ErrTrailingEscape
| ErrTrailingWhitespace.

Record BadPatternError := mkBadPattern {
  Err : PatternErr;
  Column : Z;
  Line : Z;
  File : string
}.

(** Rune literals of the source. *)
Definition r_lbrack : rune := 91.     (* '[' *)
Definition r_rbrack : rune := 93.     (* ']' *)
Definition r_star : rune := 42.       (* '*' *)
Definition r_bslash : rune := 92.     (* '\\' *)
Definition r_minus : rune := 45.      (* '-' *)
Definition r_hash : rune := 35.       (* '#' *)
Definition r_space : rune := 32.      (* ' ' *)
Definition r_tab : rune := 9.         (* '\t' *)
Definition r_newline : rune := 10.    (* '\n' *)

(** [case ' ', '\t', '\n'] *)
Definition is_space (r : rune) : bool :=
  (r =? r_space) || (r =? r_tab) || (r =? r_newline).

Module check.

Inductive State :=
| Initial | Regular | ClassBegin | ClassMiddle | ClassRange | ClassRequire
| Star | DualStar | Escape | Whitespace.

(** The variables of the loop of [Check] other than [column]. *)
Record vars := mkVars { state : State; last : rune; next : State }.

(** [var last rune; var state State; var next State] *)
Definition init : vars := mkVars Initial 0 Initial.

Definition regular (v : vars) (r : rune) : vars :=
  if r =? r_lbrack then mkVars ClassBegin (last v) (next v)
  else if r =? r_star then mkVars Star (last v) (next v)
  else if r =? r_bslash then mkVars Escape (last v) Regular
  else if is_space r then mkVars Whitespace (last v) (next v)
  else mkVars Regular (last v) (next v).

Definition classMiddle (v : vars) (r : rune) : vars :=
  if r =? r_bslash then mkVars Escape (last v) ClassMiddle
  else if r =? r_rbrack then mkVars Regular (last v) (next v)
  else if r =? r_minus then mkVars ClassRange (last v) (next v)
  else mkVars ClassMiddle r (next v).

(** The body of the loop: the [switch state] on one rune.  [inr e] is
    [return give(e)]. *)
Definition step (v : vars) (r : rune) : vars + PatternErr :=
  match state v with
  | Initial => inl (regular v r)              (* state = Regular; fallthrough *)
  | Regular => inl (regular v r)
  | ClassBegin =>
    if r =? r_rbrack then inr ErrEmptyClass
    else if r =? r_minus then inr ErrUnexpectedRune
    else if r =? r_bslash then inl (mkVars Escape (last v) ClassRequire)
    else inl (mkVars ClassMiddle r (next v))
  | ClassRequire =>
    if r =? r_minus then inr ErrUnexpectedRune
    else inl (classMiddle v r)                (* state = ClassMiddle; fallthrough *)
  | ClassMiddle => inl (classMiddle v r)
  | ClassRange =>
    if (r =? r_minus) || (r =? r_bslash) || (r =? r_rbrack)
    then inr ErrUnexpectedRune
    else if int32 (r - last v) <? 0 then inr ErrNegativeRange
    else inl (mkVars ClassRequire (last v) (next v))
  | Escape => inl (mkVars (next v) (last v) (next v))
  | Star =>
    if r =? r_star then inl (mkVars DualStar (last v) (next v))
    else inl (mkVars Regular (last v) (next v))
  | DualStar => inr ErrDualStar
  | Whitespace =>
    if is_space r then inl v
    else inl (mkVars Regular (last v) (next v))
  end.

(** [give]: the error at the current column, outside any file. *)
Definition give (column : Z) (e : PatternErr) : BadPatternError :=
  mkBadPattern e column (-1) "".

(** [for _, r := range glob { column++; switch state {...} }] *)
Fixpoint loop (rs : list rune) (column : Z) (v : vars)
  : (Z * vars) + BadPatternError :=
  match rs with
  | [] => inl (column, v)
  | r :: rs' =>
    let column := column + 1 in
    match step v r with
    | inr e => inr (give column e)
    | inl v' => loop rs' column v'
    end
  end.

(** The [switch state] after the loop. *)
Definition finish (column : Z) (s : State) : option BadPatternError :=
  match s with
  | Initial => Some (give column ErrEmptyGlob)
  | ClassBegin | ClassMiddle | ClassRange => Some (give column ErrIncompleteClass)
  | Escape => Some (give column ErrTrailingEscape)
  | Whitespace => Some (give column ErrTrailingWhitespace)
  | _ => None
  end.

End check.

(** [Check]: [None] is [nil]. *)
Definition Check (glob : string) : option BadPatternError :=
  match check.loop (utf8.runes glob) (-1) check.init with
  | inr pe => Some pe
  | inl (column, v) => check.finish column (check.state v)
  end.

Definition err_of (r : option BadPatternError) : option PatternErr :=
  option_map Err r.

(** [bytes.Buffer]: the contents as a string; [WriteRune] appends the UTF-8
    encoding of the rune, [Write] appends bytes, [Reset] empties. *)
Definition WriteRune (b : string) (r : rune) : string :=
  (b ++ utf8.AppendRune r)%string.

Module clean.

Inductive State := Initial | Regular | Escape | Whitespace.

(** The variables of the loop of [Clean]: [state], [buf] and [sp]. *)
Record vars := mkVars { state : State; buf : string; sp : string }.

Definition init : vars := mkVars Initial "" "".

Definition regular (v : vars) (r : rune) : vars :=
  if is_space r then mkVars Whitespace (buf v) (WriteRune (sp v) r)
  else if r =? r_bslash then mkVars Escape (buf v) (sp v)
  else mkVars Regular (WriteRune (buf v) r) (sp v).

(** The body of the loop; [None] is [return ""]. *)
Definition step (v : vars) (r : rune) : option vars :=
  match state v with
  | Initial =>
    if r =? r_hash then None
    else Some (regular v r)                   (* state = Regular; fallthrough *)
  | Regular => Some (regular v r)
  | Escape =>
    Some (mkVars Regular (WriteRune (WriteRune (buf v) r_bslash) r) (sp v))
  | Whitespace =>
    if is_space r then Some (mkVars Whitespace (buf v) (WriteRune (sp v) r))
    else
      (* state = Regular; buf.Write(sp.Bytes()); sp.Reset() *)
      Some (mkVars Regular (buf v ++ sp v)%string "")
  end.

(** [for _, r := range s {...}; return buf.String()] *)
Fixpoint loop (rs : list rune) (v : vars) : string :=
  match rs with
  | [] => buf v
  | r :: rs' =>
    match step v r with
    | None => ""
    | Some v' => loop rs' v'
    end
  end.

End clean.

Definition Clean (s : string) : string :=
  clean.loop (utf8.runes s) clean.init.

(** ** path/filepath (Unix: [Separator] is '/', there are no volume names) *)
Module filepath.

Definition isSep (c : ascii) : bool := Ascii.eqb c "/".
Definition isDot (c : ascii) : bool := Ascii.eqb c ".".

(** [path == "" || os.IsPathSeparator(path[0])]: at the end of an element. *)
Definition atEnd (p : string) : bool :=
  match p with
  | EmptyString => true
  | String c _ => isSep c
  end.

(** The bytes of [p] up to the next separator, and the rest. *)
Fixpoint element (p : string) : string * string :=
  match p with
  | EmptyString => ("", "")
  | String c p' =>
    if isSep c then ("", p)
    else let '(e, rest) := element p' in (String c e, rest)
  end.

Definition sepAt (out : string) (i : nat) : bool :=
  match String.get i out with
  | Some c => isSep c
  | None => false
  end.

(** [for out.w > dotdot && !os.IsPathSeparator(out.index(out.w)) { out.w-- }] *)
Fixpoint backtrack (out : string) (dotdot w : nat) : nat :=
  match w with
  | O => O
  | S w' =>
    if (dotdot <? w)%nat && negb (sepAt out w) then backtrack out dotdot w'
    else w
  end.

(** The loop [for r < n] of [Clean]; [p] is [path[r:]], [out] the bytes
    written so far ([out.w] is its length). *)
Fixpoint cleanLoop (fuel : nat) (rooted : bool) (p out : string) (dotdot : nat)
  : string :=
  match fuel with
  | O => out
  | S fuel' =>
    match p with
    | EmptyString => out
    | String c p1 =>
      if isSep c then cleanLoop fuel' rooted p1 out dotdot
      else if isDot c && atEnd p1 then cleanLoop fuel' rooted p1 out dotdot
      else
        match p1 with
        | String c1 p2 =>
          if isDot c && isDot c1 && atEnd p2 then
            if (dotdot <? str_length out)%nat then
              let w := backtrack out dotdot (str_length out - 1) in
              cleanLoop fuel' rooted p2 (substring 0 w out) dotdot
            else if negb rooted then
              let out1 := if (0 <? str_length out)%nat
                          then (out ++ "/")%string else out in
              let out2 := (out1 ++ "..")%string in
              cleanLoop fuel' rooted p2 out2 (str_length out2)
            else cleanLoop fuel' rooted p2 out dotdot
          else
            let out1 :=
              if (rooted && negb (str_length out =? 1)%nat)
                 || (negb rooted && negb (str_length out =? 0)%nat)
              then (out ++ "/")%string else out in
            let '(e, rest) := element p in
            cleanLoop fuel' rooted rest (out1 ++ e)%string dotdot
        | EmptyString =>
          let out1 :=
            if (rooted && negb (str_length out =? 1)%nat)
               || (negb rooted && negb (str_length out =? 0)%nat)
            then (out ++ "/")%string else out in
          cleanLoop fuel' rooted "" (out1 ++ String c "")%string dotdot
        end
    end
  end.

(** [filepath.Clean]: the shortest equivalent path, by lexical processing.
    An empty path, and an empty result, become ".". *)
Definition Clean (path : string) : string :=
  match path with
  | EmptyString => "."
  | String c _ =>
    let rooted := isSep c in
    let out :=
      if rooted then cleanLoop (S (str_length path)) true (drop 1 path) "/" 1
      else cleanLoop (S (str_length path)) false path "" 0 in
    if (str_length out =? 0)%nat then "." else out
  end.

(** [filepath.IsAbs] *)
Definition IsAbs (path : string) : bool :=
  match path with
  | String c _ => isSep c
  | EmptyString => false
  end.

(** [strings.Join(elem, "/")] *)
Fixpoint joinSep (elem : list string) : string :=
  match elem with
  | [] => ""
  | [e] => e
  | e :: rest => (e ++ "/" ++ joinSep rest)%string
  end.

(** [filepath.Join]: the elements from the first non-empty one on, joined
    with separators and cleaned. *)
Fixpoint Join (elem : list string) : string :=
  match elem with
  | [] => ""
  | e :: rest =>
    if String.eqb e "" then Join rest else Clean (joinSep elem)
  end.

Fixpoint stripTrailingSep (s : string) : string :=
  match s with
  | EmptyString => ""
  | String c s' =>
    match stripTrailingSep s' with
    | EmptyString => if isSep c then "" else String c ""
    | t => String c t
    end
  end.

(** [path[i+1:]] for the last separator [path[i]], the whole of [path] when
    it has none. *)
Fixpoint afterLastSep (s : string) : string :=
  match s with
  | EmptyString => ""
  | String c s' =>
    if strings.ContainsByte s' "/" then afterLastSep s'
    else if isSep c then s' else s
  end.

(** [path[:i+1]] for the last separator [path[i]], empty when [path] has
    none. *)
Fixpoint uptoLastSep (s : string) : string :=
  match s with
  | EmptyString => ""
  | String c s' =>
    if strings.ContainsByte s' "/" || isSep c then String c (uptoLastSep s')
    else ""
  end.

(** [filepath.Base] *)
Definition Base (path : string) : string :=
  if String.eqb path "" then "."
  else
    let p := afterLastSep (stripTrailingSep path) in
    if String.eqb p "" then "/" else p.

(** [filepath.Dir] *)
Definition Dir (path : string) : string := Clean (uptoLastSep path).

(** *** [filepath.Match]

    [None] stands for [ErrBadPattern]. *)

Definition isByte (c : ascii) (lit : ascii) : bool := Ascii.eqb c lit.

(** [scanChunk] after the leading stars: the chunk up to the next star
    outside a class, and the rest. *)
Fixpoint scanSplit (p : string) (inrange : bool) : string * string :=
  match p with
  | EmptyString => ("", "")
  | String c p1 =>
    if isByte c "\" then
      match p1 with
      | EmptyString => (String c "", "")
      | String c1 p2 =>
        let '(a, b) := scanSplit p2 inrange in (String c (String c1 a), b)
      end
    else if isByte c "[" then
      let '(a, b) := scanSplit p1 true in (String c a, b)
    else if isByte c "]" then
      let '(a, b) := scanSplit p1 false in (String c a, b)
    else if isByte c "*" && negb inrange then ("", p)
    else let '(a, b) := scanSplit p1 inrange in (String c a, b)
  end.

Fixpoint stripStars (p : string) : bool * string :=
  match p with
  | String c p' =>
    if isByte c "*" then (true, snd (stripStars p')) else (false, p)
  | EmptyString => (false, p)
  end.

(** [scanChunk]: [(star, chunk, rest)]. *)
Definition scanChunk (pattern : string) : bool * string * string :=
  let '(star, p) := stripStars pattern in
  let '(chunk, rest) := scanSplit p false in
  (star, chunk, rest).

(** [getEsc]: a possibly escaped character of a class and the rest of the
    chunk, which must not be empty. *)
Definition getEsc (chunk : string) : option (rune * string) :=
  match chunk with
  | EmptyString => None
  | String c chunk1 =>
    if isByte c "-" || isByte c "]" then None
    else
      let chunk' := if isByte c "\" then chunk1 else chunk in
      match chunk' with
      | EmptyString => None
      | String _ _ =>
        let '(r, n) := utf8.DecodeRuneInString chunk' in
        let nchunk := drop n chunk' in
        if ((r =? utf8.RuneError) && (n =? 1)%nat)
           || (str_length nchunk =? 0)%nat
        then None
        else Some (r, nchunk)
      end
  end.

(** The loop that parses all ranges of a class against the rune [r];
    [Some (chunk, match)] when the class closes. *)
Fixpoint classRanges (fuel : nat) (chunk : string) (r : rune)
         (matched : bool) (nrange : nat) : option (string * bool) :=
  match fuel with
  | O => None
  | S fuel' =>
    match chunk with
    | String c chunk1 =>
      if isByte c "]" && (0 <? nrange)%nat then Some (chunk1, matched)
      else
        match getEsc chunk with
        | None => None
        | Some (lo, chunk2) =>
          match chunk2 with
          | String d chunk3 =>
            if isByte d "-" then
              match getEsc chunk3 with
              | None => None
              | Some (hi, chunk4) =>
                classRanges fuel' chunk4 r
                            (matched || ((lo <=? r) && (r <=? hi))) (S nrange)
              end
            else
              classRanges fuel' chunk2 r
                          (matched || ((lo <=? r) && (r <=? lo))) (S nrange)
          | EmptyString => None
          end
        end
    | EmptyString => None
    end
  end.

Inductive chunkResult :=
| ChunkErr                      (* err = ErrBadPattern *)
| ChunkNo                       (* ok = false *)
| ChunkOk (rest : string).      (* ok = true *)

(** [matchChunk]: after the match has failed the loop goes on through the
    chunk, checking that it is well formed. *)
Fixpoint matchChunkLoop (fuel : nat) (chunk s : string) (failed : bool)
  : chunkResult :=
  match fuel with
  | O => ChunkErr
  | S fuel' =>
    match chunk with
    | EmptyString => if failed then ChunkNo else ChunkOk s
    | String c chunk1 =>
      let failed := failed || (str_length s =? 0)%nat in
      if isByte c "[" then
        let '(r, s1) :=
          if failed then (0, s)
          else let '(r, n) := utf8.DecodeRuneInString s in (r, drop n s) in
        let '(negated, chunk2) :=
          match chunk1 with
          | String d chunk2 =>
            if isByte d "^" then (true, chunk2) else (false, chunk1)
          | EmptyString => (false, chunk1)
          end in
        match classRanges (S (str_length chunk2)) chunk2 r false 0 with
        | None => ChunkErr
        | Some (chunk3, matched) =>
          matchChunkLoop fuel' chunk3 s1 (failed || Bool.eqb matched negated)
        end
      else if isByte c "?" then
        if failed then matchChunkLoop fuel' chunk1 s failed
        else
          let '(_, n) := utf8.DecodeRuneInString s in
          matchChunkLoop fuel' chunk1 (drop n s)
                         (match s with
                          | String a _ => isSep a
                          | EmptyString => false
                          end)
      else
        let lit :=
          if isByte c "\" then
            match chunk1 with
            | EmptyString => None
            | String d chunk2 => Some (d, chunk2)
            end
          else Some (c, chunk1) in
        match lit with
        | None => ChunkErr
        | Some (d, chunk2) =>
          if failed then matchChunkLoop fuel' chunk2 s failed
          else
            match s with
            | String a s1 =>
              matchChunkLoop fuel' chunk2 s1 (negb (Ascii.eqb d a))
            | EmptyString => matchChunkLoop fuel' chunk2 s true
            end
        end
    end
  end.

Definition matchChunk (chunk s : string) : chunkResult :=
  matchChunkLoop (S (str_length chunk)) chunk s false.

(** [for i := 0; i < len(name) && name[i] != Separator; i++]: look for a
    match skipping [i+1] bytes.  [inl t] continues the pattern loop with
    [name = t]; [inr r] leaves the loop. *)
Fixpoint skipLoop (chunk : string) (lastChunk : bool) (name : string)
  : string + option unit :=
  match name with
  | EmptyString => inr (Some tt)
  | String a name1 =>
    if isSep a then inr (Some tt)
    else
      match matchChunk chunk name1 with
      | ChunkOk t =>
        if lastChunk && (0 <? str_length t)%nat
        then skipLoop chunk lastChunk name1
        else inl t
      | ChunkErr => inr None
      | ChunkNo => skipLoop chunk lastChunk name1
      end
  end.

(** Before returning false, the rest of the pattern is checked. *)
Fixpoint checkRest (fuel : nat) (pattern : string) : option bool :=
  match fuel with
  | O => Some false
  | S fuel' =>
    match pattern with
    | EmptyString => Some false
    | _ =>
      let '(_, chunk, rest) := scanChunk pattern in
      match matchChunk chunk "" with
      | ChunkErr => None
      | _ => checkRest fuel' rest
      end
    end
  end.

Fixpoint matchLoop (fuel : nat) (pattern name : string) : option bool :=
  match fuel with
  | O => None
  | S fuel' =>
    match pattern with
    | EmptyString => Some (str_length name =? 0)%nat
    | _ =>
      let '(star, chunk, rest) := scanChunk pattern in
      if star && String.eqb chunk "" then
        Some (negb (strings.ContainsByte name "/"))
      else
        let last := (str_length rest =? 0)%nat in
        let tryStar (err : bool) :=
          if err then None
          else if star then
            match skipLoop chunk last name with
            | inl t => matchLoop fuel' rest t
            | inr None => None
            | inr (Some _) => checkRest (S (str_length rest)) rest
            end
          else checkRest (S (str_length rest)) rest in
        match matchChunk chunk name with
        | ChunkOk t =>
          if (str_length t =? 0)%nat || negb last
          then matchLoop fuel' rest t
          else tryStar false
        | ChunkNo => tryStar false
        | ChunkErr => tryStar true
        end
    end
  end.

Definition Match (pattern name : string) : option bool :=
  matchLoop (S (str_length pattern)) pattern name.

End filepath.

(** * matcher.go *)

(** Go's [error] values that occur in the package. *)
Inductive error :=
| EBadPattern (pe : BadPatternError)          (* *BadPatternError, from Check *)
| ErrMissingDir
| ErrGlobIsPath
| ErrConfigUnset
| ErrBadPattern                               (* filepath.ErrBadPattern *)
| EOS (notExist : bool) (msg : string).       (* an error of package os *)

(** [os.IsNotExist] *)
Definition IsNotExist (e : error) : bool :=
  match e with
  | EOS notExist _ => notExist
  | _ => false
  end.

(** A call returns a value or panics. *)
Inductive result (A : Type) :=
| Ret (a : A)
| Panic (e : error).
Arguments Ret {A} a.
Arguments Panic {A} e.

(** What the package sees of the operating system: the working directory
    of the process, and for a path either the lines that a [bufio.Scanner]
    yields from the file together with the scanner's final error, or the
    error of [os.Open]. *)
Record file := mkFile { lines : list string; scanErr : option error }.
Record OS := mkOS { Getwd : string + error; Open : string -> file + error }.

(** [filepath.Abs] *)
Definition Abs (os : OS) (path : string) : string + error :=
  if filepath.IsAbs path then inl (filepath.Clean path)
  else
    match Getwd os with
    | inr e => inr e
    | inl wd => inl (filepath.Join [wd; path])
    end.

Record Matcher := mkMatcher {
  ErrHandler : option (error -> option error);
  config : string;
  global : list string
}.

Record Worker := mkWorker {
  cwd : string;
  local : list string;
  wglobal : list string          (* the field [global] of Worker *)
}.

(** [New] *)
Definition New (config : string) : Matcher := mkMatcher None config [].

(** [match] *)
Definition match_ (pattern s : string) : result bool :=
  if String.eqb pattern "" then Ret false
  else
    let s := if negb (strings.ContainsByte pattern "/")
             then filepath.Base s else s in
    match filepath.Match pattern s with
    | None => Panic ErrBadPattern
    | Some m => Ret m
    end.

Fixpoint matchAll (patterns : list string) (s : string) : result bool :=
  match patterns with
  | [] => Ret false
  | p :: rest =>
    match match_ p s with
    | Panic e => Panic e
    | Ret true => Ret true
    | Ret false => matchAll rest s
    end
  end.

(** [add]: the list after the call and the error returned. *)
Definition add (lst : list string) (glob : string)
  : list string * option error :=
  match Check glob with
  | Some pe => (lst, Some (EBadPattern pe))
  | None =>
    if strings.ContainsByte glob "/" then (lst, Some ErrGlobIsPath)
    else (lst ++ [glob], None)
  end.

Fixpoint addAll (lst : list string) (globs : list string)
  : list string * option error :=
  match globs with
  | [] => (lst, None)
  | g :: rest =>
    match add lst g with
    | (lst', Some err) => (lst', Some err)
    | (lst', None) => addAll lst' rest
    end
  end.

(** [Matcher.Add] *)
Definition Matcher_Add (m : Matcher) (globs : list string)
  : Matcher * option error :=
  let '(l, err) := addAll (global m) globs in
  (mkMatcher (ErrHandler m) (config m) l, err).

(** [Matcher.Matches] *)
Definition Matcher_Matches (m : Matcher) (path : string) : result bool :=
  matchAll (global m) (filepath.Base path).

(** [Worker.Add] *)
Definition Worker_Add (w : Worker) (glob : list string)
  : Worker * option error :=
  let '(l, err) := addAll (local w) glob in
  (mkWorker (cwd w) l (wglobal w), err).

(** The loop [for sc.Scan()] of [Worker.AddFile] over the remaining lines;
    [line] counts the lines read so far, [final] is [sc.Err()]. *)
Fixpoint addLines (path base : string) (ls : list string) (line : Z)
         (final : option error) (w : Worker) : Worker * option error :=
  match ls with
  | [] => (w, final)
  | text :: ls' =>
    let line := line + 1 in
    let s := Clean text in
    if String.eqb s "" then addLines path base ls' line final w
    else
      match Check s with
      | Some pe =>
        (w, Some (EBadPattern (mkBadPattern (Err pe) (Column pe) line path)))
      | None =>
        let s := if strings.ContainsByte s "/"
                 then filepath.Join [base; s] else s in
        addLines path base ls' line final
                 (mkWorker (cwd w) (local w ++ [s]) (wglobal w))
      end
  end.

(** [Worker.AddFile] *)
Definition Worker_AddFile (os : OS) (w : Worker) (path : string)
  : Worker * option error :=
  match Abs os path with
  | inr err => (w, Some err)
  | inl abs =>
    match Open os abs with
    | inr err => (w, Some err)
    | inl f =>
      addLines path (filepath.Dir abs) (lines f) 0 (scanErr f) w
    end
  end.

(** [Worker.Reset] *)
Definition Worker_Reset (w : Worker) : Worker :=
  mkWorker (cwd w) [] (wglobal w).

(** [Worker.Matches] *)
Definition Worker_Matches (w : Worker) (path : string) : result bool :=
  let path := filepath.Clean path in
  if String.eqb path "" then Ret false
  else
    let path := if negb (filepath.IsAbs path)
                then filepath.Clean (filepath.Join [cwd w; path])
                else path in
    match matchAll (wglobal w) path with
    | Panic e => Panic e
    | Ret true => Ret true
    | Ret false =>
      match matchAll (local w) path with
      | Panic e => Panic e
      | Ret true => Ret true
      | Ret false => Ret false
      end
    end.

(** The loop of [NewWorker] that reads the configuration files.  [None]
    when [fuel] iterations did not reach the [break]. *)
Fixpoint readConfigs (fuel : nat) (os : OS) (m : Matcher) (dir : string)
         (w : Worker) : option (Worker + error) :=
  match fuel with
  | O => None
  | S fuel' =>
    let '(w', err) := Worker_AddFile os w (filepath.Join [dir; config m]) in
    let abort :=
      match err, ErrHandler m with
      | Some e, Some h => if negb (IsNotExist e) then h e else None
      | _, _ => None
      end in
    match abort with
    | Some e => Some (inr e)
    | None =>
      let dir := filepath.Clean (filepath.Join [dir; ".."]) in
      if String.eqb dir "/" then Some (inl w')
      else readConfigs fuel' os m dir w'
    end
  end.

(** [Matcher.NewWorker] *)
Definition NewWorker (fuel : nat) (os : OS) (m : Matcher) (dir : string)
  : option (Worker + error) :=
  let dir := filepath.Clean dir in
  if String.eqb dir "" then Some (inr ErrMissingDir)
  else
    let absdir := if negb (filepath.IsAbs dir) then Abs os dir else inl dir in
    match absdir with
    | inr err => Some (inr err)
    | inl dir =>
      let w := mkWorker dir [] (global m) in
      if negb (String.eqb (config m) "") then readConfigs fuel os m dir w
      else Some (inl w)
    end.

(** * Notions used in the statements *)

(** The errors that [Check] gives after the loop, at the end of the input. *)
Definition at_end_of_input (e : PatternErr) : bool :=
  match e with
  | ErrEmptyGlob | ErrIncompleteClass | ErrTrailingEscape
  | ErrTrailingWhitespace => true
  | _ => false
  end.

(** [add] accepts a glob that passes [Check] and has no path separator. *)
Definition addable (g : string) : bool :=
  match Check g with
  | None => negb (strings.ContainsByte g "/")
  | Some _ => false
  end.

(** What a line that passes validation adds to the local list: nothing when
    it cleans to the empty string, else the cleaned line, joined to the
    directory of the file when it has a separator. *)
Definition loaded_line (base text : string) : list string :=
  let s := Clean text in
  if String.eqb s "" then []
  else [if strings.ContainsByte s "/" then filepath.Join [base; s] else s].

(** What the lines of a file add, in order. *)
Definition loaded (base : string) (ls : list string) : list string :=
  flat_map (loaded_line base) ls.

(** A line that the loop gets past: empty after [Clean], or valid. *)
Definition line_ok (text : string) : Prop :=
  Clean text = "" \/ Check (Clean text) = None.

(** A file system with the one file /d/match.conf, whose fifth line is a
    class with a negative range; the working directory is the root. *)
Definition os_example : OS :=
  mkOS (inl "/")
       (fun p =>
          if String.eqb p "/d/match.conf"
          then inl (mkFile ["# globs"; "foo"; ""; "doc/*.html"; "[z-a]x"; "bar"]
                           None)
          else inr (EOS true "no such file or directory")).

(** The outcomes of [DecodeRuneInString] on a string that is not empty. *)
Inductive decodes : string -> rune -> nat -> Prop :=
| dec_error c0 s : decodes (String c0 s) utf8.RuneError 1
| dec_ascii c0 s :
    byte_val c0 < 128 -> decodes (String c0 s) (byte_val c0) 1
| dec_2 c0 c1 s lo hi :
    utf8.first (byte_val c0) = utf8.SZ 2 lo hi ->
    lo <= byte_val c1 <= hi ->
    decodes (String c0 (String c1 s))
            (byte_val c0 mod 32 * 64 + byte_val c1 mod 64) 2
| dec_3 c0 c1 c2 s lo hi :
    utf8.first (byte_val c0) = utf8.SZ 3 lo hi ->
    lo <= byte_val c1 <= hi ->
    128 <= byte_val c2 <= 191 ->
    decodes (String c0 (String c1 (String c2 s)))
            (byte_val c0 mod 16 * 4096 + byte_val c1 mod 64 * 64
             + byte_val c2 mod 64) 3
| dec_4 c0 c1 c2 c3 s lo hi :
    utf8.first (byte_val c0) = utf8.SZ 4 lo hi ->
    lo <= byte_val c1 <= hi ->
    128 <= byte_val c2 <= 191 ->
    128 <= byte_val c3 <= 191 ->
    decodes (String c0 (String c1 (String c2 (String c3 s))))
            (byte_val c0 mod 8 * 262144 + byte_val c1 mod 64 * 4096
             + byte_val c2 mod 64 * 64 + byte_val c3 mod 64) 4.

(** The bytes of a sequence of runes written one after the other. *)
Fixpoint WriteRunes (rs : list rune) : string :=
  match rs with
  | [] => ""
  | r :: rs' => (utf8.AppendRune r ++ WriteRunes rs')%string
  end.

(** Whether the scan of [Clean] takes the branch of state [Whitespace] for
    a rune that is not white space (line 239 of check.go), that is, whether
    white space that no backslash escapes is followed by another rune. *)
Fixpoint leaves_Whitespace (rs : list rune) (v : clean.vars) : bool :=
  match rs with
  | [] => false
  | r :: rs' =>
    match clean.state v with
    | clean.Whitespace => negb (is_space r)
    | _ => false
    end
    || match clean.step v r with
       | None => false
       | Some v' => leaves_Whitespace rs' v'
       end
  end.

(** What [Clean] keeps of the runes up to the first white space that is not
    escaped; [esc] tells that the rune before was an escaping backslash. *)
Fixpoint kept (esc : bool) (rs : list rune) : list rune :=
  match rs with
  | [] => []
  | r :: rs' =>
    if esc then r_bslash :: r :: kept false rs'
    else if is_space r then []
    else if r =? r_bslash then kept true rs'
    else r :: kept false rs'
  end.

(** The state of [Clean] after an escaping backslash, or after any other
    rune that is not white space. *)
Definition state_of (esc : bool) : clean.State :=
  if esc then clean.Escape else clean.Regular.

(** A file system with a configuration file in a directory named "x[" and
    one in a directory named "d". *)
Definition os_bracket : OS :=
  mkOS (inl "/")
       (fun p =>
          if String.eqb p "/x[/match.conf" then inl (mkFile ["a/b"] None)
          else if String.eqb p "/d/match.conf" then inl (mkFile ["a\/"] None)
          else inr (EOS true "no such file or directory")).

(** A file system with a configuration file in the root and one in /a. *)
Definition os_root : OS :=
  mkOS (inl "/")
       (fun p =>
          if String.eqb p "/match.conf" then inl (mkFile ["rootglob"] None)
          else if String.eqb p "/a/match.conf" then inl (mkFile ["aglob"] None)
          else inr (EOS true "no such file or directory")).

(** A rune that [Check] takes as a literal in state [Regular]: none of
    '[', '*', '\\' and white space. *)
Definition ordinary (r : rune) : bool :=
  negb ((r =? r_lbrack) || (r =? r_star) || (r =? r_bslash) || is_space r).

(** The states of [Check] in which [next] has been assigned: in state
    [Escape] it is one of the three states that set it. *)
Definition escape_target (v : check.vars) : Prop :=
  check.state v <> check.Initial /\
  (check.state v = check.Escape ->
   check.next v = check.Regular \/ check.next v = check.ClassRequire \/
   check.next v = check.ClassMiddle).

(** The bytes of a string, as numbers. *)
Fixpoint bytes (s : string) : list Z :=
  match s with
  | EmptyString => []
  | String c s' => byte_val c :: bytes s'
  end.

(** The variables of [Clean] when its loop has gone through the runes
    [rs]; [None] when it has returned at a leading '#'. *)
Fixpoint clean_scan (rs : list rune) (v : clean.vars) : option clean.vars :=
  match rs with
  | [] => Some v
  | r :: rs' =>
    match clean.step v r with
    | None => None
    | Some v' => clean_scan rs' v'
    end
  end.

(** The state in which the scan of [s] by [Clean] ends. *)
Definition clean_final (s : string) : option clean.State :=
  option_map clean.state (clean_scan (utf8.runes s) clean.init).

(** A rune that [Clean] copies in state [Regular]: neither white space nor
    a backslash. *)
Definition copied (r : rune) : bool := negb (is_space r || (r =? r_bslash)).

(** Both buffers of [Clean] hold the encodings of valid runes. *)
Definition written (v : clean.vars) : Prop :=
  exists b p, Forall utf8.valid b /\ Forall utf8.valid p /\
              clean.buf v = WriteRunes b /\ clean.sp v = WriteRunes p.

(** A glob that [add] appends: it passes [Check] and has no separator. *)
Definition basename_glob (g : string) : Prop :=
  Check g = None /\ strings.ContainsByte g "/" = false.

(** [Matcher.Add] called with one batch after the other. *)
Definition Matcher_Adds (m : Matcher) (batches : list (list string)) : Matcher :=
  fold_left (fun m globs => fst (Matcher_Add m globs)) batches m.

(** The path that [Worker.Matches] tests: cleaned, and joined to the
    working directory when it is not absolute. *)
Definition Worker_path (w : Worker) (path : string) : string :=
  let path := filepath.Clean path in
  if negb (filepath.IsAbs path)
  then filepath.Clean (filepath.Join [cwd w; path]) else path.



(** A glob without classes and escapes: it has no '[' and no '\\'. *)
Definition star_glob (p : string) : bool :=
  negb (strings.ContainsByte p "[") && negb (strings.ContainsByte p "\").

(** A bound on the length of what [filepath.Clean] returns for a rooted
    path, when [out] is written and [p] is still to be read: the element at
    the head of [p] will need a separator unless [out] is the root. *)
Definition clean_bound (p out : string) : nat :=
  String.length out + String.length p
  + match p with
    | String c _ =>
      if negb (filepath.isSep c) && negb (String.length out =? 1)%nat
      then 1 else 0
    | EmptyString => 0
    end.

(** A path that begins with the separator. *)
Definition rooted_path (s : string) : Prop := exists t, s = String "/" t.


(** A handler that gives back the error it is given. *)
Definition pass_error (e : error) : option error := Some e.

From Stdlib Require DecimalString.

(** The texts of the error variables ([errors.New]). *)
Definition message (e : PatternErr) : string :=
  match e with
  | ErrUnexpectedRune => "unexpected rune"
  | ErrNegativeRange => "negative range"
  | ErrDualStar => "dual stars not supported"
  | ErrEmptyClass => "character class empty"
  | ErrEmptyGlob => "glob empty"
  | ErrIncompleteClass => "character class incomplete"
  | ErrTrailingEscape => "trailing escape character"
  | ErrTrailingWhitespace => "trailing whitespace"
  end.

(** The verb [%d] of [fmt.Sprintf] on an [int]: decimal, with a minus sign
    for a negative number. *)
Definition itoa (z : Z) : string :=
  DecimalString.NilZero.string_of_int (Z.to_int z).

(** [BadPatternError.Error] *)
Definition Error (pe : BadPatternError) : string :=
  if Line pe <? 0
  then ("column " ++ itoa (Column pe) ++ ": " ++ message (Err pe))%string
  else (File pe ++ ":" ++ itoa (Line pe) ++ ":" ++ itoa (Column pe) ++ ": "
        ++ message (Err pe))%string.

(** * The embedding on the examples of the Go documentation and tests *)

Example runes_ascii : utf8.runes "a*b" = [97; 42; 98].
Proof. reflexivity. Qed.

(** "ζ" is U+03B6, two bytes in UTF-8. *)
Example runes_zeta : utf8.runes "[a-ζ]" = [91; 97; 45; 950; 93].
Proof. reflexivity. Qed.

Example AppendRune_zeta : utf8.AppendRune 950 = "ζ".
Proof. reflexivity. Qed.

(** A continuation byte on its own is not UTF-8: one [RuneError] per byte. *)
Example runes_invalid :
  utf8.runes (String (to_byte 191) "a") = [utf8.RuneError; 97].
Proof. reflexivity. Qed.

Example filepath_Clean_examples :
  map filepath.Clean
      [""; "/"; "/a/b/"; "/a/../.."; "a//b/./c/.."; "../a"; "a/../..";
       "/a/b/../c"; "."; "/x[/a/b"]
  = ["."; "/"; "/a/b"; "/"; "a/b"; "../a"; ".."; "/a/c"; "."; "/x[/a/b"].
Proof. reflexivity. Qed.

Example filepath_Join_examples :
  map filepath.Join
      [["/a"; "match.conf"]; ["/a/b"; ".."]; ["/"; ".."]; ["/home"; "."];
       [""; ""]; ["a"; ""]]
  = ["/a/match.conf"; "/a"; "/"; "/home"; ""; "a"].
Proof. reflexivity. Qed.

Example filepath_Base_examples :
  map filepath.Base [""; "/"; "/a/b"; "a/b/"; "."; "foo"]
  = ["."; "/"; "b"; "b"; "."; "foo"].
Proof. reflexivity. Qed.

Example filepath_Dir_examples :
  map filepath.Dir ["/a/b/match.conf"; "/match.conf"; "match.conf"; "/a/"; ""]
  = ["/a/b"; "/"; "."; "/a"; "."].
Proof. reflexivity. Qed.

Example filepath_Match_examples :
  map (fun pn => filepath.Match (fst pn) (snd pn))
      [("foo", "foo"); ("foo", "foobar"); ("bar/*", "bar/foo");
       ("bar/*", "bar"); ("*.html", "git.html");
       ("Documentation/*.html", "Documentation/xyz/git.html");
       ("a[b-d]?", "acx"); ("a[^b-d]", "ac"); ("a\*b", "a*b"); ("*", "home");
       ("*", "/"); ("*x", "abxcx"); ("a*b*c", "aXXbYYc"); ("[a-ζ]*", "δx")]
  = map Some [true; false; true; false; true; false; true; false; true; true;
              false; true; true; true].
Proof. reflexivity. Qed.

Example filepath_Match_bad_patterns :
  map (fun pn => filepath.Match (fst pn) (snd pn))
      [("[", "a"); ("a\", "a"); ("[]a]", "a"); ("[a-b-c]", "a")]
  = repeat None 4.
Proof. reflexivity. Qed.

(** The table of TestCheck (check_test.go). *)
Example TestCheck_ok :
  map Check ["abc"; "*"; "*c"; "a*"; "a*/b"; "a*b*c*d*e*/f"; "a*b?c*x";
             "ab[c]"; "ab[b-d]"; "ab[^c]"; "ab[^b-d]"; "a\*b"; "a[^a]b";
             "a???b"; "a[^a][^a][^a]b"; "[a-ζ]*"; "*[a-ζ]"; "a?b"; "a*b";
             "[\]a]"; "[\-]"; "[x\-]"; "[\-x]"; "*x"; "]"]
  = repeat None 25.
Proof. reflexivity. Qed.

Example TestCheck_err :
  map (fun g => err_of (Check g))
      ["[]a]"; "[-]"; "[x-]"; "[-x]"; "\"; "[a-b-c]"; "["; "[^"; "[^bc";
       "a["; ""; ("  " ++ String "009" "")%string; " "; "ab "; "[\--]";
       "foo/**/bar"; "foo[]bar"; "[z-a]"]
  = map Some
      [ErrEmptyClass; ErrUnexpectedRune; ErrUnexpectedRune; ErrUnexpectedRune;
       ErrTrailingEscape; ErrUnexpectedRune; ErrIncompleteClass;
       ErrIncompleteClass; ErrIncompleteClass; ErrIncompleteClass;
       ErrEmptyGlob; ErrTrailingWhitespace; ErrTrailingWhitespace;
       ErrTrailingWhitespace; ErrUnexpectedRune; ErrDualStar; ErrEmptyClass;
       ErrNegativeRange].
Proof. reflexivity. Qed.

(** The table of TestMatch (matcher_test.go). *)
Example TestMatch :
  map (fun t => match_ (fst t) (snd t))
      [("", ""); ("", "/"); ("", "/home"); ("", "local");
       ((" " ++ String "009" "")%string, "local");
       ("foo", "foo"); ("foo", "bar/foo"); ("foo", "foobar");
       ("bar/*", "foo"); ("bar/*", "bar/foo"); ("bar/*", "bar");
       ("Documentation/*.html", "Documentation/git.html");
       ("Documentation/*.html", "Documentation/xyz/git.html");
       ("Documentation/*.html", "tools/Documentation/perf.html")]
  = map Ret [false; false; false; false; false; true; true; false; false;
             true; false; true; false; false].
Proof. reflexivity. Qed.

Example Clean_comment : Clean "# a comment" = "".
Proof. reflexivity. Qed.

Example Clean_trailing_space : Clean "foo  " = "foo".
Proof. reflexivity. Qed.

Example Clean_escaped_space : Clean "foo\ " = "foo\ ".
Proof. reflexivity. Qed.

Example Clean_trailing_escape : Clean "foo\" = "foo".
Proof. reflexivity. Qed.

(** * The validator: columns and end of input *)

Section CheckLoop.

Import check.

(** The loop counts one column per rune. *)
Lemma loop_column (rs : list rune) :
  forall column v column' v',
    loop rs column v = inl (column', v') ->
    column' = column + Z.of_nat (List.length rs).
Proof.
  induction rs as [|r rs IH]; intros column v column' v' H.
  - simpl in H. injection H as <- _. simpl. lia.
  - simpl in H. destruct (step v r) as [v1|e]; [|discriminate].
    apply IH in H. rewrite H. simpl List.length. lia.
Qed.

(** A scan over [pre ++ post] that gets through [pre] goes on with [post]. *)
Lemma loop_app (pre post : list rune) :
  forall column v column' v',
    loop pre column v = inl (column', v') ->
    loop (pre ++ post) column v = loop post column' v'.
Proof.
  induction pre as [|r pre IH]; intros column v column' v' H.
  - simpl in H. injection H as <- <-. reflexivity.
  - simpl in H |- *. destruct (step v r) as [v1|e]; [|discriminate].
    now apply IH.
Qed.

(** A failing scan fails on one rune, after a prefix that it got through;
    the column of the error is the column of that rune. *)
Lemma loop_fails (rs : list rune) :
  forall column v pe,
    loop rs column v = inr pe ->
    exists pre r post v',
      rs = pre ++ r :: post /\
      loop pre column v = inl (column + Z.of_nat (List.length pre), v') /\
      step v' r = inr (Err pe) /\
      pe = give (column + Z.of_nat (List.length pre) + 1) (Err pe).
Proof.
  induction rs as [|r rs IH]; intros column v pe H.
  - discriminate.
  - simpl in H. destruct (step v r) as [v1|e] eqn:Hs.
    + apply IH in H. destruct H as (pre & r' & post & v' & -> & Hl & Hst & Hpe).
      exists (r :: pre), r', post, v'. repeat split.
      * simpl. rewrite Hs. rewrite Hl. f_equal. f_equal. simpl List.length. lia.
      * exact Hst.
      * rewrite Hpe at 1. f_equal. simpl List.length. lia.
    + injection H as <-. exists [], r, rs, v. simpl. repeat split.
      * f_equal. f_equal. lia.
      * exact Hs.
      * f_equal. lia.
Qed.

End CheckLoop.

Lemma step_error_in_scan (v : check.vars) (r : rune) (e : PatternErr) :
  check.step v r = inr e -> at_end_of_input e = false.
Proof.
  unfold check.step. destruct (check.state v);
    repeat match goal with
           | |- context [if ?c then _ else _] => destruct c
           end; intros H; inversion H; reflexivity.
Qed.

Lemma finish_error_at_end (column : Z) (s : check.State) (pe : BadPatternError) :
  check.finish column s = Some pe ->
  at_end_of_input (Err pe) = true /\ Column pe = column.
Proof.
  destruct s; simpl; intros H; inversion H; split; reflexivity.
Qed.

(** C7 (as amended).  The [Column] of an error of [Check] counts runes, not
    bytes.  For an error raised inside the scan it is the 0-based index of
    the rune that triggered it: the scan got through the runes before it,
    and the step on that rune failed.  For an error raised at the end of the
    input (ErrEmptyGlob, ErrIncompleteClass, ErrTrailingEscape,
    ErrTrailingWhitespace) it is the index of the last rune of the input,
    that is the number of runes minus one, and so -1 for the empty input. *)
Theorem Check_Column (glob : string) (pe : BadPatternError) :
  Check glob = Some pe ->
  let rs := utf8.runes glob in
  if at_end_of_input (Err pe)
  then Column pe = Z.of_nat (List.length rs) - 1
  else exists pre r post v,
      rs = pre ++ r :: post /\
      Column pe = Z.of_nat (List.length pre) /\
      check.loop pre (-1) check.init = inl (Column pe - 1, v) /\
      check.step v r = inr (Err pe).
Proof.
  intros H rs. unfold Check in H. fold rs in H.
  destruct (check.loop rs (-1) check.init) as [[column v]|pe'] eqn:Hl.
  - apply finish_error_at_end in H. destruct H as [-> ->].
    apply loop_column in Hl. lia.
  - injection H as ->.
    destruct (loop_fails _ _ _ _ Hl) as (pre & r & post & v' & Hrs & Hpre & Hst & Hpe).
    rewrite (step_error_in_scan _ _ _ Hst).
    assert (Hc : Column pe = Z.of_nat (List.length pre))
      by (rewrite Hpe; unfold check.give; cbn [Column]; lia).
    exists pre, r, post, v'. repeat split; try assumption.
    rewrite Hpre. f_equal. f_equal. lia.
Qed.

Lemma Check_Column_witness :
  Check "[^" = Some (check.give 1 ErrIncompleteClass) /\
  Column (check.give 1 ErrIncompleteClass)
  = Z.of_nat (List.length (utf8.runes "[^")) - 1.
Proof.
  split; [reflexivity|].
  exact (Check_Column "[^" (check.give 1 ErrIncompleteClass) eq_refl).
Defined.

(** C7 as stated fails: at the end of the input the column is not the index
    one past the last rune.  [Check "["] gives ErrIncompleteClass at column 0
    (and [Check ""] gives ErrEmptyGlob at column -1). *)
Lemma Check_Column_not_one_past_the_end :
  ~ (forall glob pe,
        Check glob = Some pe ->
        at_end_of_input (Err pe) = true ->
        Column pe = Z.of_nat (List.length (utf8.runes glob))).
Proof.
  intros H.
  specialize (H "[" (check.give 0 ErrIncompleteClass) eq_refl eq_refl).
  discriminate H.
Qed.

(** The column is an index of runes: in "[ζ-a]" the rune 'a' is the fourth
    rune and the fifth byte. *)
Example Check_Column_counts_runes :
  Check "[ζ-a]" = Some (check.give 3 ErrNegativeRange) /\
  String.get 4 "[ζ-a]" = Some "a"%char.
Proof. split; reflexivity. Qed.

(** Two stars that follow a prefix which leaves the scan in [Regular] (or
    the empty prefix): accepted when nothing follows, ErrDualStar at the
    rune that follows otherwise. *)
Lemma Check_two_stars_after_prefix (glob : string) (rs : list rune)
      (column : Z) (v : check.vars) :
  check.loop rs (-1) check.init = inl (column, v) ->
  check.state v = check.Initial \/ check.state v = check.Regular ->
  (utf8.runes glob = rs ++ [r_star; r_star] -> Check glob = None) /\
  (forall r rest,
      utf8.runes glob = rs ++ r_star :: r_star :: r :: rest ->
      Check glob = Some (check.give (Z.of_nat (List.length rs) + 2) ErrDualStar)).
Proof.
  intros Hl Hst.
  pose proof (loop_column _ _ _ _ _ Hl) as Hc.
  split.
  - intros Hg. unfold Check. rewrite Hg, (loop_app _ _ _ _ _ _ Hl).
    simpl. unfold check.step. destruct Hst as [-> | ->]; reflexivity.
  - intros r rest Hg. unfold Check. rewrite Hg, (loop_app _ _ _ _ _ _ Hl).
    simpl. unfold check.step at 1.
    destruct Hst as [-> | ->]; simpl; do 2 f_equal; lia.
Qed.

(** C8.  When the scan ends in state [DualStar] (the input ends with two
    stars that nothing escapes), [Check] succeeds; the ErrDualStar error
    needs a rune after the second star: every input that goes on with one
    more rune fails with ErrDualStar at the column of that rune.  So
    [Check "**"] is nil, and [Check "**x"] and [Check "**/"] are
    ErrDualStar (at column 2). *)
Theorem Check_ends_in_DualStar (glob : string) (column : Z) (v : check.vars) :
  check.loop (utf8.runes glob) (-1) check.init = inl (column, v) ->
  check.state v = check.DualStar ->
  Check glob = None /\
  (forall glob' r rest,
      utf8.runes glob' = utf8.runes glob ++ r :: rest ->
      Check glob' = Some (check.give (column + 1) ErrDualStar)) /\
  Check "**" = None /\
  Check "**x" = Some (check.give 2 ErrDualStar) /\
  Check "**/" = Some (check.give 2 ErrDualStar).
Proof.
  intros Hl Hst. split; [|split; [|repeat split]].
  - unfold Check. rewrite Hl. simpl. rewrite Hst. reflexivity.
  - intros glob' r rest Hg. unfold Check.
    rewrite Hg, (loop_app _ _ _ _ _ _ Hl). simpl.
    unfold check.step. rewrite Hst. reflexivity.
Qed.

Lemma Check_ends_in_DualStar_witness :
  check.loop (utf8.runes "a**") (-1) check.init
  = inl (2, check.mkVars check.DualStar 0 check.Initial) /\
  Check "a**" = None /\
  Check "a**/b" = Some (check.give 3 ErrDualStar).
Proof.
  split; [reflexivity|].
  pose proof (Check_ends_in_DualStar "a**" 2 _ eq_refl eq_refl) as H.
  split; [exact (proj1 H)|].
  exact (proj1 (proj2 H) "a**/b" 47 [98] eq_refl).
Defined.

(** * Direct insertion: [add] and [addAll] *)

Lemma addable_true (g : string) :
  addable g = true <-> Check g = None /\ strings.ContainsByte g "/" = false.
Proof.
  unfold addable. destruct (Check g); split.
  - discriminate.
  - intros [H _]. discriminate.
  - intros H. split; [reflexivity|]. now apply negb_true_iff.
  - intros [_ H]. now apply negb_true_iff.
Qed.

Lemma addable_false (g : string) :
  addable g = false <-> Check g <> None \/ strings.ContainsByte g "/" = true.
Proof.
  unfold addable. destruct (Check g); split.
  - intros _. left. discriminate.
  - reflexivity.
  - intros H. right. now apply negb_false_iff.
  - intros [H | H]; [congruence | now apply negb_false_iff].
Qed.

Lemma add_addable (lst : list string) (g : string) :
  addable g = true -> add lst g = (lst ++ [g], None).
Proof.
  unfold addable, add. destruct (Check g); [discriminate|].
  destruct (strings.ContainsByte g "/"); [discriminate|reflexivity].
Qed.

Lemma add_not_addable (lst : list string) (g : string) :
  addable g = false ->
  exists e, add lst g = (lst, Some e) /\ forall lst', add lst' g = (lst', Some e).
Proof.
  unfold addable, add. destruct (Check g) as [pe|].
  - intros _. exists (EBadPattern pe). split; reflexivity.
  - destruct (strings.ContainsByte g "/"); [|discriminate].
    intros _. exists ErrGlobIsPath. split; reflexivity.
Qed.

(** The globs before the first one that [add] refuses are appended. *)
Lemma addAll_addable_prefix (pre rest : list string) :
  forall lst,
    forallb addable pre = true ->
    addAll lst (pre ++ rest) = addAll (lst ++ pre) rest.
Proof.
  induction pre as [|g pre IH]; intros lst H; simpl in *.
  - now rewrite app_nil_r.
  - apply andb_true_iff in H. destruct H as [Hg Hpre].
    rewrite (add_addable _ _ Hg), (IH _ Hpre), <- app_assoc. reflexivity.
Qed.

Lemma addAll_first_error (lst pre post : list string) (bad : string) :
  forallb addable pre = true ->
  addable bad = false ->
  exists e,
    add lst bad = (lst, Some e) /\
    addAll lst (pre ++ bad :: post) = (lst ++ pre, Some e).
Proof.
  intros Hpre Hbad.
  destruct (add_not_addable lst bad Hbad) as (e & He & Hall).
  exists e. split; [exact He|].
  rewrite (addAll_addable_prefix _ _ _ Hpre). simpl. now rewrite Hall.
Qed.

(** A batch with a glob that [add] refuses splits at the first such glob. *)
Lemma first_not_addable (globs : list string) :
  (exists g, In g globs /\ addable g = false) ->
  exists pre bad post,
    globs = pre ++ bad :: post /\
    forallb addable pre = true /\ addable bad = false.
Proof.
  induction globs as [|g globs IH]; intros (b & Hin & Hb).
  - destruct Hin.
  - destruct (addable g) eqn:Hg.
    + destruct Hin as [-> | Hin]; [congruence|].
      destruct IH as (pre & bad & post & -> & Hpre & Hbad); [now exists b|].
      exists (g :: pre), bad, post. simpl. rewrite Hg, Hpre. auto.
    + exists [], g, globs. auto.
Qed.

(** C3 (as amended).  When a batch passed to [Matcher.Add] or [Worker.Add]
    holds a pattern that is invalid or has a path separator, the call
    returns the error of the first such pattern, no pattern from that one
    on is inserted, and the list is the list before the call followed by
    the patterns of the batch that precede it. *)
Theorem Add_stops_at_first_error (m : Matcher) (w : Worker)
        (globs : list string) :
  (exists g, In g globs /\
             (Check g <> None \/ strings.ContainsByte g "/" = true)) ->
  exists pre bad post e,
    globs = pre ++ bad :: post /\
    Forall (fun g => Check g = None /\ strings.ContainsByte g "/" = false) pre /\
    (Check bad <> None \/ strings.ContainsByte bad "/" = true) /\
    snd (add [] bad) = Some e /\
    Matcher_Add m globs
    = (mkMatcher (ErrHandler m) (config m) (global m ++ pre), Some e) /\
    Worker_Add w globs
    = (mkWorker (cwd w) (local w ++ pre) (wglobal w), Some e).
Proof.
  intros (g & Hin & Hg).
  destruct (first_not_addable globs) as (pre & bad & post & -> & Hpre & Hbad).
  { exists g. split; [exact Hin|]. now apply addable_false. }
  destruct (add_not_addable [] bad Hbad) as (e & He & Hall).
  exists pre, bad, post, e. repeat split.
  - apply Forall_forall. intros x Hx. apply addable_true.
    rewrite forallb_forall in Hpre. now apply Hpre.
  - now apply addable_false.
  - now rewrite He.
  - unfold Matcher_Add.
    destruct (addAll_first_error (global m) pre post bad Hpre Hbad)
      as (e' & He' & ->).
    rewrite Hall in He'. now injection He' as <-.
  - unfold Worker_Add.
    destruct (addAll_first_error (local w) pre post bad Hpre Hbad)
      as (e' & He' & ->).
    rewrite Hall in He'. now injection He' as <-.
Qed.

Lemma Add_stops_at_first_error_witness :
  exists pre bad post e,
    ["a"; "b"; "c/d"; "e"] = pre ++ bad :: post /\
    Forall (fun g => Check g = None /\ strings.ContainsByte g "/" = false) pre /\
    (Check bad <> None \/ strings.ContainsByte bad "/" = true) /\
    snd (add [] bad) = Some e /\
    Matcher_Add (New "match.conf") ["a"; "b"; "c/d"; "e"]
    = (mkMatcher None "match.conf" ([] ++ pre), Some e) /\
    Worker_Add (mkWorker "/" ["x"] []) ["a"; "b"; "c/d"; "e"]
    = (mkWorker "/" (["x"] ++ pre) [], Some e).
Proof.
  apply (Add_stops_at_first_error (New "match.conf") (mkWorker "/" ["x"] [])).
  exists "c/d". split; [simpl; auto | right; reflexivity].
Defined.

(** C3 as stated fails: the patterns before the first refused one stay in
    the list.  [Add("a", "")] on an empty matcher returns ErrEmptyGlob and
    leaves "a" in the global list. *)
Lemma Add_is_not_atomic :
  ~ (forall (m : Matcher) (globs : list string),
        (exists g, In g globs /\
                   (Check g <> None \/ strings.ContainsByte g "/" = true)) ->
        exists e, Matcher_Add m globs = (m, Some e)).
Proof.
  intros H.
  destruct (H (New "match.conf") ["a"; ""]) as (e & He).
  - exists "". split; [simpl; auto | left; discriminate].
  - discriminate He.
Qed.

(** * Loading a file: [Worker.AddFile] *)

Lemma addLines_ok_prefix (path base : string) (pre rest : list string)
      (final : option error) :
  forall line w,
    Forall line_ok pre ->
    addLines path base (pre ++ rest) line final w
    = addLines path base rest (line + Z.of_nat (List.length pre)) final
               (mkWorker (cwd w) (local w ++ loaded base pre) (wglobal w)).
Proof.
  induction pre as [|t pre IH]; intros line w H.
  - simpl. rewrite app_nil_r, Z.add_0_r. now destruct w.
  - inversion H as [|? ? Ht Hpre]; subst.
    replace (line + Z.of_nat (List.length (t :: pre)))
      with (line + 1 + Z.of_nat (List.length pre))
      by (simpl List.length; lia).
    cbn [app addLines loaded flat_map]. unfold loaded_line at 1.
    destruct (String.eqb (Clean t) "") eqn:He.
    + rewrite (IH _ _ Hpre). reflexivity.
    + destruct Ht as [Ht | Ht].
      * rewrite Ht in He. discriminate.
      * rewrite Ht, (IH _ _ Hpre). cbn [cwd local wglobal].
        rewrite <- app_assoc. reflexivity.
Qed.

(** C10.  When [Worker.AddFile] opens the file and a line that is not
    empty after [Clean] fails [Check], all lines before it being empty or
    valid, it returns that error with [Line] set to the 1-based number of
    the line and [File] to the path it was called with, reads no further
    line, and the local list keeps the patterns of the lines before. *)
Theorem AddFile_stops_at_first_bad_line (os : OS) (w : Worker)
        (path abs : string) (f : file) (pre post : list string)
        (bad : string) (pe : BadPatternError) :
  Abs os path = inl abs ->
  Open os abs = inl f ->
  lines f = pre ++ bad :: post ->
  Forall line_ok pre ->
  Clean bad <> "" ->
  Check (Clean bad) = Some pe ->
  Worker_AddFile os w path
  = (mkWorker (cwd w) (local w ++ loaded (filepath.Dir abs) pre) (wglobal w),
     Some (EBadPattern
             (mkBadPattern (Err pe) (Column pe)
                           (Z.of_nat (List.length pre) + 1) path))).
Proof.
  intros Habs Hopen Hlines Hpre Hne Hbad.
  unfold Worker_AddFile. rewrite Habs, Hopen, Hlines.
  rewrite (addLines_ok_prefix _ _ _ _ _ _ _ Hpre).
  cbn [addLines]. apply String.eqb_neq in Hne. rewrite Hne, Hbad.
  reflexivity.
Qed.

Lemma AddFile_stops_at_first_bad_line_witness :
  Worker_AddFile os_example (mkWorker "/d" ["x"] []) "d/match.conf"
  = (mkWorker "/d" ["x"; "foo"; "/d/doc/*.html"] [],
     Some (EBadPattern (mkBadPattern ErrNegativeRange 3 5 "d/match.conf"))).
Proof.
  refine (AddFile_stops_at_first_bad_line
            os_example (mkWorker "/d" ["x"] []) "d/match.conf" "/d/match.conf"
            (mkFile ["# globs"; "foo"; ""; "doc/*.html"; "[z-a]x"; "bar"] None)
            ["# globs"; "foo"; ""; "doc/*.html"] ["bar"] "[z-a]x"
            (check.give 3 ErrNegativeRange)
            eq_refl eq_refl eq_refl _ _ eq_refl).
  - repeat constructor; (left; reflexivity) || (right; reflexivity).
  - discriminate.
Defined.

(** * UTF-8: decoding after encoding *)

Lemma byte_val_range (c : ascii) : 0 <= byte_val c < 256.
Proof.
  unfold byte_val. pose proof (N_ascii_bounded c). lia.
Qed.

Lemma byte_val_to_byte (z : Z) : byte_val (to_byte z) = z mod 256.
Proof.
  unfold byte_val, to_byte.
  pose proof (Z.mod_pos_bound z 256 ltac:(lia)).
  rewrite N_ascii_embedding by lia. lia.
Qed.

(** Bits that do not overlap add up. *)
Lemma lor_add (k x y : Z) :
  0 <= k -> 0 <= y < 2 ^ k -> x mod 2 ^ k = 0 -> Z.lor x y = x + y.
Proof.
  intros Hk Hy Hx.
  assert (Hl : Z.land x y = 0).
  { apply Z.bits_inj'. intros n Hn. rewrite Z.land_spec, Z.bits_0.
    destruct (Z.lt_ge_cases n k) as [Hlt | Hge].
    - rewrite <- (Z.mod_pow2_bits_low x k n) by lia.
      rewrite Hx, Z.bits_0. reflexivity.
    - rewrite <- (Z.mod_small y (2 ^ k)) by lia.
      rewrite (Z.mod_pow2_bits_high y k n) by lia. apply andb_false_r. }
  rewrite <- Z.lxor_lor by exact Hl. symmetry. now apply Z.add_nocarry_lxor.
Qed.

Lemma land_mask (k x : Z) : 0 <= k -> Z.land x (2 ^ k - 1) = x mod 2 ^ k.
Proof.
  intros Hk. rewrite <- Z.land_ones by exact Hk.
  now rewrite Z.ones_equiv, <- Z.sub_1_r.
Qed.

Lemma land_maskx (x : Z) : Z.land x utf8.maskx = x mod 64.
Proof. exact (land_mask 6 x ltac:(lia)). Qed.

Lemma land_mask2 (x : Z) : Z.land x utf8.mask2 = x mod 32.
Proof. exact (land_mask 5 x ltac:(lia)). Qed.

Lemma land_mask3 (x : Z) : Z.land x utf8.mask3 = x mod 16.
Proof. exact (land_mask 4 x ltac:(lia)). Qed.

Lemma land_mask4 (x : Z) : Z.land x utf8.mask4 = x mod 8.
Proof. exact (land_mask 3 x ltac:(lia)). Qed.

(** The values that [DecodeRuneInString] assembles, as sums. *)
Lemma rune2_sum (p0 b1 : Z) :
  Z.lor (Z.shiftl (Z.land p0 utf8.mask2) 6) (Z.land b1 utf8.maskx)
  = p0 mod 32 * 64 + b1 mod 64.
Proof.
  rewrite land_mask2, land_maskx, Z.shiftl_mul_pow2 by lia.
  apply (lor_add 6); [lia | apply Z.mod_pos_bound; lia |].
  apply Z.mod_mul. lia.
Qed.

Lemma rune3_sum (p0 b1 b2 : Z) :
  Z.lor (Z.lor (Z.shiftl (Z.land p0 utf8.mask3) 12)
               (Z.shiftl (Z.land b1 utf8.maskx) 6))
        (Z.land b2 utf8.maskx)
  = p0 mod 16 * 4096 + b1 mod 64 * 64 + b2 mod 64.
Proof.
  rewrite land_mask3, !land_maskx, !Z.shiftl_mul_pow2 by lia.
  pose proof (Z.mod_pos_bound b1 64 ltac:(lia)).
  pose proof (Z.mod_pos_bound b2 64 ltac:(lia)).
  rewrite (lor_add 12 (p0 mod 16 * 2 ^ 12) (b1 mod 64 * 2 ^ 6));
    [ | lia | lia | apply Z.mod_mul; lia ].
  rewrite (lor_add 6 _ (b2 mod 64)); [ lia | lia | lia | ].
  replace (p0 mod 16 * 2 ^ 12 + b1 mod 64 * 2 ^ 6)
    with ((p0 mod 16 * 64 + b1 mod 64) * 2 ^ 6) by lia.
  apply Z.mod_mul. lia.
Qed.

Lemma rune4_sum (p0 b1 b2 b3 : Z) :
  Z.lor (Z.lor (Z.lor (Z.shiftl (Z.land p0 utf8.mask4) 18)
                      (Z.shiftl (Z.land b1 utf8.maskx) 12))
               (Z.shiftl (Z.land b2 utf8.maskx) 6))
        (Z.land b3 utf8.maskx)
  = p0 mod 8 * 262144 + b1 mod 64 * 4096 + b2 mod 64 * 64 + b3 mod 64.
Proof.
  rewrite land_mask4, !land_maskx, !Z.shiftl_mul_pow2 by lia.
  pose proof (Z.mod_pos_bound b1 64 ltac:(lia)).
  pose proof (Z.mod_pos_bound b2 64 ltac:(lia)).
  pose proof (Z.mod_pos_bound b3 64 ltac:(lia)).
  rewrite (lor_add 18 (p0 mod 8 * 2 ^ 18) (b1 mod 64 * 2 ^ 12));
    [ | lia | lia | apply Z.mod_mul; lia ].
  rewrite (lor_add 12 _ (b2 mod 64 * 2 ^ 6)); [ | lia | lia | ].
  - rewrite (lor_add 6 _ (b3 mod 64)); [ lia | lia | lia | ].
    replace (p0 mod 8 * 2 ^ 18 + b1 mod 64 * 2 ^ 12 + b2 mod 64 * 2 ^ 6)
      with ((p0 mod 8 * 4096 + b1 mod 64 * 64 + b2 mod 64) * 2 ^ 6) by lia.
    apply Z.mod_mul. lia.
  - replace (p0 mod 8 * 2 ^ 18 + b1 mod 64 * 2 ^ 12)
      with ((p0 mod 8 * 64 + b1 mod 64) * 2 ^ 12) by lia.
    apply Z.mod_mul. lia.
Qed.

(** What the first byte announces, case by case. *)
Lemma first_cases (b : Z) :
  match utf8.first b with
  | utf8.AS => b < 128
  | utf8.XX => True
  | utf8.SZ sz lo hi =>
    (sz = 2%nat /\ 194 <= b < 224 /\ lo = 128 /\ hi = 191) \/
    (sz = 3%nat /\
     ((b = 224 /\ lo = 160 /\ hi = 191) \/
      (b = 237 /\ lo = 128 /\ hi = 159) \/
      (224 < b < 240 /\ b <> 237 /\ lo = 128 /\ hi = 191))) \/
    (sz = 4%nat /\
     ((b = 240 /\ lo = 144 /\ hi = 191) \/
      (240 < b < 244 /\ lo = 128 /\ hi = 191) \/
      (b = 244 /\ lo = 128 /\ hi = 143)))
  end.
Proof.
  unfold utf8.first, utf8.locb, utf8.hicb.
  repeat match goal with
         | |- context [?x <? ?y] => destruct (Z.ltb_spec x y)
         | |- context [?x =? ?y] => destruct (Z.eqb_spec x y)
         end; try exact I; try lia.
Qed.

Ltac case_range :=
  match goal with
  | |- context [(?a <? ?b) || (?c <? ?d)] =>
    destruct (Z.ltb_spec a b); [apply dec_error|];
    destruct (Z.ltb_spec c d); [apply dec_error|];
    cbn [orb Nat.leb fst snd]
  end.

Lemma DecodeRuneInString_decodes (c0 : ascii) (s1 : string) :
  decodes (String c0 s1)
          (fst (utf8.DecodeRuneInString (String c0 s1)))
          (snd (utf8.DecodeRuneInString (String c0 s1))).
Proof.
  unfold utf8.DecodeRuneInString.
  pose proof (first_cases (byte_val c0)) as Hf.
  destruct (utf8.first (byte_val c0)) as [| |sz lo hi] eqn:Ef.
  - now apply dec_ascii.
  - apply dec_error.
  - destruct ((str_length (String c0 s1) <? sz)%nat); [apply dec_error|].
    destruct s1 as [|c1 s2]; [apply dec_error|].
    case_range.
    destruct Hf as [(-> & _) | [(-> & _) | (-> & _)]]; cbn [Nat.leb].
    + rewrite rune2_sum. apply (dec_2 _ _ _ lo hi); [exact Ef | lia].
    + destruct s2 as [|c2 s3]; [apply dec_error|].
      unfold utf8.locb, utf8.hicb. case_range.
      rewrite rune3_sum. apply (dec_3 _ _ _ _ lo hi); [exact Ef | lia | lia].
    + destruct s2 as [|c2 s3]; [apply dec_error|].
      unfold utf8.locb, utf8.hicb. case_range.
      destruct s3 as [|c3 s4]; [apply dec_error|].
      case_range.
      rewrite rune4_sum.
      apply (dec_4 _ _ _ _ _ lo hi); [exact Ef | lia | lia | lia].
Qed.

Ltac first_eval :=
  unfold utf8.first, utf8.locb, utf8.hicb;
  repeat match goal with
         | |- context [?x <? ?y] => destruct (Z.ltb_spec x y); try lia
         | |- context [?x =? ?y] => destruct (Z.eqb_spec x y); try lia
         end; try reflexivity.

Lemma first_ascii (b : Z) : b < 128 -> utf8.first b = utf8.AS.
Proof. intros H. first_eval. Qed.

Lemma first_2 (b : Z) : 194 <= b < 224 -> utf8.first b = utf8.SZ 2 128 191.
Proof. intros H. first_eval. Qed.

Lemma first_3 (b : Z) :
  224 <= b < 240 ->
  utf8.first b
  = utf8.SZ 3 (if b =? 224 then 160 else 128) (if b =? 237 then 159 else 191).
Proof.
  intros H. destruct (Z.eqb_spec b 224) as [->|]; [reflexivity|].
  destruct (Z.eqb_spec b 237) as [->|]; [reflexivity|]. first_eval.
Qed.

Lemma first_4 (b : Z) :
  240 <= b < 245 ->
  utf8.first b
  = utf8.SZ 4 (if b =? 240 then 144 else 128) (if b =? 244 then 143 else 191).
Proof.
  intros H. destruct (Z.eqb_spec b 240) as [->|]; [reflexivity|].
  destruct (Z.eqb_spec b 244) as [->|]; [reflexivity|]. first_eval.
Qed.

(** Every decoded rune is a Unicode scalar value. *)
Lemma decodes_valid (s : string) (r : rune) (n : nat) :
  decodes s r n -> utf8.valid r.
Proof.
  unfold utf8.valid, utf8.MaxRune, utf8.surrogateMin, utf8.surrogateMax.
  intros H. destruct H as [c0 s|c0 s Hlt|c0 c1 s lo hi Hf Hb1
                           |c0 c1 c2 s lo hi Hf Hb1 Hb2
                           |c0 c1 c2 c3 s lo hi Hf Hb1 Hb2 Hb3].
  - unfold utf8.RuneError. lia.
  - pose proof (byte_val_range c0). lia.
  - pose proof (first_cases (byte_val c0)) as Hc. rewrite Hf in Hc.
    pose proof (byte_val_range c1).
    destruct Hc as [Hc | [[Hc _] | [Hc _]]]; try discriminate.
    Z.div_mod_to_equations. lia.
  - pose proof (first_cases (byte_val c0)) as Hc. rewrite Hf in Hc.
    pose proof (byte_val_range c1). pose proof (byte_val_range c2).
    destruct Hc as [[Hc _] | [[_ Hc] | [Hc _]]]; try discriminate.
    Z.div_mod_to_equations. lia.
  - pose proof (first_cases (byte_val c0)) as Hc. rewrite Hf in Hc.
    pose proof (byte_val_range c1). pose proof (byte_val_range c2).
    pose proof (byte_val_range c3).
    destruct Hc as [[Hc _] | [[Hc _] | [_ Hc]]]; try discriminate.
    Z.div_mod_to_equations. lia.
Qed.

Lemma decodes_width (s : string) (r : rune) (n : nat) :
  decodes s r n ->
  exists c pre, (String c pre ++ drop n s)%string = s /\
                String.length (String c pre) = n.
Proof.
  intros H. destruct H.
  - exists c0, "". split; reflexivity.
  - exists c0, "". split; reflexivity.
  - exists c0, (String c1 ""). split; reflexivity.
  - exists c0, (String c1 (String c2 "")). split; reflexivity.
  - exists c0, (String c1 (String c2 (String c3 ""))). split; reflexivity.
Qed.

(** One iteration of [range]. *)
Lemma runes_cons (c0 : ascii) (s1 : string) :
  utf8.runes (String c0 s1)
  = fst (utf8.DecodeRuneInString (String c0 s1))
    :: utf8.runes (drop (snd (utf8.DecodeRuneInString (String c0 s1)))
                        (String c0 s1)).
Proof.
  pose proof (DecodeRuneInString_decodes c0 s1) as H.
  cbn [utf8.runes].
  destruct (utf8.DecodeRuneInString (String c0 s1)) as [r n].
  cbn [fst snd] in *. inversion H; subst; reflexivity.
Qed.

Lemma drop_length (n : nat) :
  forall s, String.length (drop n s) = (String.length s - n)%nat.
Proof.
  induction n as [|n IH]; intros [|c s]; simpl; try reflexivity. apply IH.
Qed.

Lemma runes_valid (s : string) : Forall utf8.valid (utf8.runes s).
Proof.
  remember (String.length s) as k eqn:Hk.
  revert s Hk. induction k as [k IH] using lt_wf_ind. intros s Hk.
  destruct s as [|c0 s1]; [constructor|].
  rewrite runes_cons.
  pose proof (DecodeRuneInString_decodes c0 s1) as H.
  constructor.
  - exact (decodes_valid _ _ _ H).
  - destruct (decodes_width _ _ _ H) as (c & pre & _ & Hn).
    eapply IH; [|reflexivity].
    rewrite drop_length, Hk, <- Hn. simpl. lia.
Qed.

(** The bytes that [AppendRune] writes. *)
Lemma enc_lead (t j x : Z) :
  0 <= j -> 0 <= t -> t mod 2 ^ j = 0 -> t + 2 ^ j <= 256 -> 0 <= x < 2 ^ j ->
  byte_val (to_byte (Z.lor t (byte_val (to_byte x)))) = t + x.
Proof.
  intros Hj Ht Hm Hle Hx.
  rewrite !byte_val_to_byte, (Z.mod_small x) by lia.
  rewrite (lor_add j) by assumption. apply Z.mod_small. lia.
Qed.

Lemma enc_cont (x : Z) :
  byte_val (to_byte (Z.lor utf8.tx (Z.land (byte_val (to_byte x)) utf8.maskx)))
  = 128 + x mod 64.
Proof.
  rewrite !byte_val_to_byte, land_maskx.
  assert (E : (x mod 256) mod 64 = x mod 64)
    by (Z.div_mod_to_equations; lia).
  rewrite E. pose proof (Z.mod_pos_bound x 64 ltac:(lia)).
  unfold utf8.tx. rewrite (lor_add 6) by (try reflexivity; lia).
  apply Z.mod_small. lia.
Qed.

(** [DecodeRuneInString] on well-formed sequences. *)
Ltac range_ok :=
  match goal with
  | |- context [(?a <? ?b) || (?c <? ?d)] =>
    destruct (Z.ltb_spec a b); [lia|];
    destruct (Z.ltb_spec c d); [lia|];
    cbn [orb Nat.leb Nat.ltb str_length String.length]
  end.

Lemma Decode_1 (c0 : ascii) (s : string) :
  byte_val c0 < 128 ->
  utf8.DecodeRuneInString (String c0 s) = (byte_val c0, 1%nat).
Proof.
  intros H. unfold utf8.DecodeRuneInString. now rewrite first_ascii.
Qed.

Lemma Decode_2 (c0 c1 : ascii) (s : string) :
  194 <= byte_val c0 < 224 ->
  128 <= byte_val c1 <= 191 ->
  utf8.DecodeRuneInString (String c0 (String c1 s))
  = (byte_val c0 mod 32 * 64 + byte_val c1 mod 64, 2%nat).
Proof.
  intros H0 H1. unfold utf8.DecodeRuneInString. rewrite first_2 by assumption.
  cbn [Nat.leb Nat.ltb str_length String.length]. range_ok.
  now rewrite rune2_sum.
Qed.

Lemma Decode_3 (c0 c1 c2 : ascii) (s : string) :
  224 <= byte_val c0 < 240 ->
  (if byte_val c0 =? 224 then 160 else 128) <= byte_val c1
  <= (if byte_val c0 =? 237 then 159 else 191) ->
  128 <= byte_val c2 <= 191 ->
  utf8.DecodeRuneInString (String c0 (String c1 (String c2 s)))
  = (byte_val c0 mod 16 * 4096 + byte_val c1 mod 64 * 64 + byte_val c2 mod 64,
     3%nat).
Proof.
  intros H0 H1 H2. unfold utf8.DecodeRuneInString.
  rewrite first_3 by assumption.
  cbn [Nat.leb Nat.ltb str_length String.length]. range_ok.
  unfold utf8.locb, utf8.hicb. range_ok.
  now rewrite rune3_sum.
Qed.

Lemma Decode_4 (c0 c1 c2 c3 : ascii) (s : string) :
  240 <= byte_val c0 < 245 ->
  (if byte_val c0 =? 240 then 144 else 128) <= byte_val c1
  <= (if byte_val c0 =? 244 then 143 else 191) ->
  128 <= byte_val c2 <= 191 ->
  128 <= byte_val c3 <= 191 ->
  utf8.DecodeRuneInString (String c0 (String c1 (String c2 (String c3 s))))
  = (byte_val c0 mod 8 * 262144 + byte_val c1 mod 64 * 4096
     + byte_val c2 mod 64 * 64 + byte_val c3 mod 64, 4%nat).
Proof.
  intros H0 H1 H2 H3. unfold utf8.DecodeRuneInString.
  rewrite first_4 by assumption.
  cbn [Nat.leb Nat.ltb str_length String.length]. range_ok.
  unfold utf8.locb, utf8.hicb. range_ok. range_ok.
  now rewrite rune4_sum.
Qed.

Ltac div_lia := Z.div_mod_to_equations; lia.

(** Decoding what [AppendRune] wrote gives the rune back, whatever
    follows. *)
Lemma Decode_AppendRune (r : rune) (s : string) :
  utf8.valid r ->
  utf8.DecodeRuneInString (utf8.AppendRune r ++ s)
  = (r, String.length (utf8.AppendRune r)) /\
  (0 < String.length (utf8.AppendRune r))%nat.
Proof.
  unfold utf8.valid, utf8.MaxRune, utf8.surrogateMin, utf8.surrogateMax.
  intros [Hr Hs].
  assert (E6 : Z.shiftr r 6 = r / 64)
    by (now rewrite Z.shiftr_div_pow2 by lia).
  assert (E12 : Z.shiftr r 12 = r / 4096)
    by (now rewrite Z.shiftr_div_pow2 by lia).
  assert (E18 : Z.shiftr r 18 = r / 262144)
    by (now rewrite Z.shiftr_div_pow2 by lia).
  unfold utf8.AppendRune, utf8.enc3, uint32, utf8.MaxRune, utf8.surrogateMin,
    utf8.surrogateMax.
  rewrite (Z.mod_small r) by lia. rewrite E6, E12, E18.
  destruct (Z.leb_spec r 127) as [H1|H1].
  { cbn [append String.length]. split; [|lia].
    rewrite Decode_1; rewrite byte_val_to_byte, Z.mod_small by lia;
      [reflexivity | lia]. }
  destruct (Z.leb_spec r 2047) as [H2|H2].
  { cbn [append String.length]. split; [|lia].
    assert (B0 : byte_val (to_byte (Z.lor utf8.t2 (byte_val (to_byte (r / 64)))))
                 = 192 + r / 64)
      by (apply (enc_lead 192 5); try reflexivity; try lia; div_lia).
    rewrite Decode_2; rewrite ?B0, ?enc_cont; [|div_lia|div_lia].
    f_equal. div_lia. }
  destruct (Z.ltb_spec 1114111 r) as [H3|H3]; [lia|].
  destruct (Z.leb_spec 55296 r) as [H4|H4];
    destruct (Z.leb_spec r 57343) as [H5|H5]; try lia; cbn [orb andb].
  - (* 0xE000 .. 0x10FFFF *)
    destruct (Z.leb_spec r 65535) as [H6|H6].
    + cbn [append String.length]. split; [|lia].
      assert (B0 : byte_val (to_byte (Z.lor utf8.t3
                                            (byte_val (to_byte (r / 4096)))))
                   = 224 + r / 4096)
        by (apply (enc_lead 224 4); try reflexivity; try lia; div_lia).
      rewrite Decode_3; rewrite ?B0, ?enc_cont.
      * f_equal. div_lia.
      * div_lia.
      * destruct (Z.eqb_spec (224 + r / 4096) 224);
          destruct (Z.eqb_spec (224 + r / 4096) 237); div_lia.
      * div_lia.
    + cbn [append String.length]. split; [|lia].
      assert (B0 : byte_val (to_byte (Z.lor utf8.t4
                                            (byte_val (to_byte (r / 262144)))))
                   = 240 + r / 262144)
        by (apply (enc_lead 240 3); try reflexivity; try lia; div_lia).
      rewrite Decode_4; rewrite ?B0, ?enc_cont.
      * f_equal. div_lia.
      * div_lia.
      * destruct (Z.eqb_spec (240 + r / 262144) 240);
          destruct (Z.eqb_spec (240 + r / 262144) 244); div_lia.
      * div_lia.
      * div_lia.
  - (* 0x800 .. 0xD7FF *)
    destruct (Z.leb_spec r 65535) as [H6|H6]; [|lia].
    cbn [append String.length]. split; [|lia].
    assert (B0 : byte_val (to_byte (Z.lor utf8.t3
                                          (byte_val (to_byte (r / 4096)))))
                 = 224 + r / 4096)
      by (apply (enc_lead 224 4); try reflexivity; try lia; div_lia).
    rewrite Decode_3; rewrite ?B0, ?enc_cont.
    * f_equal. div_lia.
    * div_lia.
    * destruct (Z.eqb_spec (224 + r / 4096) 224);
        destruct (Z.eqb_spec (224 + r / 4096) 237); div_lia.
    * div_lia.
Qed.

Lemma drop_append (a s : string) : drop (String.length a) (a ++ s) = s.
Proof. induction a as [|c a IH]; [reflexivity | exact IH]. Qed.

Lemma runes_AppendRune (r : rune) (s : string) :
  utf8.valid r -> utf8.runes (utf8.AppendRune r ++ s) = r :: utf8.runes s.
Proof.
  intros Hv. destruct (Decode_AppendRune r s Hv) as [Hd Hlen].
  destruct (utf8.AppendRune r) as [|c a] eqn:Ea; [simpl in Hlen; lia|].
  change (String c a ++ s)%string with (String c (a ++ s)) in *.
  rewrite runes_cons, Hd. cbn [fst snd]. f_equal.
  change (String c (a ++ s)) with (String c a ++ s)%string.
  now rewrite drop_append.
Qed.

Lemma runes_WriteRunes (rs : list rune) :
  Forall utf8.valid rs -> utf8.runes (WriteRunes rs) = rs.
Proof.
  induction 1 as [|r rs Hr _ IH]; [reflexivity|].
  simpl. now rewrite runes_AppendRune, IH.
Qed.

Lemma append_assoc (a b c : string) : ((a ++ b) ++ c = a ++ (b ++ c))%string.
Proof. induction a as [|x a IH]; simpl; [reflexivity | now rewrite IH]. Qed.

Lemma append_empty_r (a : string) : (a ++ "")%string = a.
Proof. induction a as [|x a IH]; simpl; [reflexivity | now rewrite IH]. Qed.

(** * The normalizer *)

Section CleanLoop.

Import clean.

Lemma WriteRune_assoc (b : string) (r : rune) (rs : list rune) :
  (WriteRune b r ++ WriteRunes rs)%string = (b ++ WriteRunes (r :: rs))%string.
Proof. unfold WriteRune. simpl. apply append_assoc. Qed.

(** In state [Whitespace], a scan that never leaves it returns [buf]. *)
Lemma loop_Whitespace (rs : list rune) :
  forall b p,
    leaves_Whitespace rs (mkVars Whitespace b p) = false ->
    loop rs (mkVars Whitespace b p) = b.
Proof.
  induction rs as [|r rs IH]; intros b p H; [reflexivity|].
  cbn [leaves_Whitespace loop step state buf sp] in *.
  destruct (is_space r); [|discriminate]. simpl in H. now apply IH.
Qed.

(** In states [Regular] and [Escape], such a scan appends the kept runes. *)
Lemma loop_kept (rs : list rune) :
  forall esc b,
    leaves_Whitespace rs (mkVars (state_of esc) b "") = false ->
    loop rs (mkVars (state_of esc) b "") = (b ++ WriteRunes (kept esc rs))%string.
Proof.
  induction rs as [|r rs IH]; intros esc b H.
  - simpl. now rewrite append_empty_r.
  - pose proof (IH false) as IHr. pose proof (IH true) as IHe.
    cbn [state_of] in IHr, IHe.
    destruct esc; cbn [state_of leaves_Whitespace loop step state buf sp kept orb] in *.
    + rewrite (IHr _ H), !WriteRune_assoc. reflexivity.
    + unfold regular in *. cbn [buf sp] in *. destruct (is_space r).
      * rewrite (loop_Whitespace _ _ _ H). simpl. now rewrite append_empty_r.
      * destruct (r =? r_bslash).
        -- exact (IHe _ H).
        -- rewrite (IHr _ H), WriteRune_assoc. reflexivity.
Qed.

(** The kept runes have no white space that is not escaped: scanning them
    again keeps them all. *)
Lemma loop_on_kept (rs : list rune) :
  forall esc b,
    loop (kept esc rs) (mkVars Regular b "")
    = (b ++ WriteRunes (kept esc rs))%string.
Proof.
  induction rs as [|r rs IH]; intros esc b.
  - simpl. now rewrite append_empty_r.
  - destruct esc; cbn [kept].
    + cbn [loop step state buf sp]. unfold regular. cbn [buf sp].
      change (is_space r_bslash) with false.
      change (r_bslash =? r_bslash) with true. cbv iota.
      cbn [loop step state buf sp].
      rewrite (IH false), !WriteRune_assoc. reflexivity.
    + destruct (is_space r) eqn:Hs.
      * simpl. now rewrite append_empty_r.
      * destruct (r =? r_bslash) eqn:Hb; [exact (IH true b)|].
        cbn [loop step state buf sp]. unfold regular. cbn [buf sp].
        rewrite Hs, Hb, (IH false), WriteRune_assoc. reflexivity.
Qed.

Lemma kept_valid (rs : list rune) :
  forall esc, Forall utf8.valid rs -> Forall utf8.valid (kept esc rs).
Proof.
  assert (Hb : utf8.valid r_bslash)
    by (unfold utf8.valid, r_bslash, utf8.MaxRune, utf8.surrogateMin; lia).
  induction rs as [|r rs IH]; intros esc H; [constructor|].
  inversion H as [|? ? Hr Hrs]; subst. cbn [kept].
  destruct esc; [constructor; [exact Hb|]; constructor; auto|].
  destruct (is_space r); [constructor|].
  destruct (r =? r_bslash); [auto|]. constructor; auto.
Qed.

(** The first kept rune is not '#', unless it was the first rune. *)
Lemma kept_head (rs : list rune) :
  forall esc r o,
    kept esc rs = r :: o -> r = r_hash -> esc = false /\ hd 0 rs = r_hash.
Proof.
  induction rs as [|x rs IH]; intros esc r o H Hr; [discriminate|].
  cbn [kept] in H. destruct esc.
  - injection H as <- _. discriminate.
  - destruct (is_space x); [discriminate|].
    destruct (x =? r_bslash) eqn:Hx.
    + destruct (IH _ _ _ H Hr) as [? _]. discriminate.
    + injection H as <- _. now split.
Qed.

(** From [Initial] the first rune is handled as in [Regular], unless it is
    '#'. *)
Lemma loop_Initial (r : rune) (rs : list rune) :
  (r =? r_hash) = false ->
  loop (r :: rs) init = loop (r :: rs) (mkVars Regular "" "") /\
  leaves_Whitespace (r :: rs) init
  = leaves_Whitespace (r :: rs) (mkVars Regular "" "").
Proof.
  intros H. unfold init. cbn [loop leaves_Whitespace step state]. rewrite H.
  split; reflexivity.
Qed.

End CleanLoop.

(** [Clean] on a string whose scan never leaves state [Whitespace]. *)
Lemma Clean_kept (s : string) :
  leaves_Whitespace (utf8.runes s) clean.init = false ->
  Clean s = "" \/
  (Clean s = WriteRunes (kept false (utf8.runes s)) /\
   hd 0 (utf8.runes s) <> r_hash).
Proof.
  unfold Clean. destruct (utf8.runes s) as [|r rs]; [now left|].
  intros H. destruct (r =? r_hash) eqn:Hr.
  - left. unfold clean.init. cbn [clean.loop clean.step clean.state].
    now rewrite Hr.
  - right. destruct (loop_Initial r rs Hr) as [-> Hl]. rewrite Hl in H.
    split.
    + exact (loop_kept (r :: rs) false "" H).
    + simpl. intros ->. discriminate.
Qed.

Lemma Clean_empty : Clean "" = "".
Proof. reflexivity. Qed.

(** C6 (as amended).  [Clean] is idempotent on every string in whose scan
    no rune other than white space arrives in state [Whitespace], that is,
    every string in which white space that is not escaped occurs only at
    the end: for such a string [s], Clean(Clean(s)) = Clean(s). *)
Theorem Clean_idempotent (s : string) :
  leaves_Whitespace (utf8.runes s) clean.init = false ->
  Clean (Clean s) = Clean s.
Proof.
  intros H. destruct (Clean_kept s H) as [-> | [E Hh]]; [reflexivity|].
  rewrite E. unfold Clean at 1.
  rewrite runes_WriteRunes by (apply kept_valid, runes_valid).
  destruct (kept false (utf8.runes s)) as [|r o] eqn:Ek; [reflexivity|].
  destruct (r =? r_hash) eqn:Hr.
  - apply Z.eqb_eq in Hr. destruct (kept_head _ _ _ _ Ek Hr) as [_ Hd].
    contradiction.
  - destruct (loop_Initial r o Hr) as [-> _]. rewrite <- Ek.
    exact (loop_on_kept (utf8.runes s) false "").
Qed.

Lemma Clean_idempotent_witness :
  leaves_Whitespace (utf8.runes "[a-ζ]\ x\  ") clean.init = false /\
  Clean "[a-ζ]\ x\  " = "[a-ζ]\ x\ " /\
  Clean (Clean "[a-ζ]\ x\  ") = Clean "[a-ζ]\ x\  ".
Proof.
  split; [reflexivity|]. split; [reflexivity|].
  exact (Clean_idempotent "[a-ζ]\ x\  " eq_refl).
Defined.

(** C6 as stated fails.  White space followed by a lone backslash: the
    white space is flushed, the backslash is not kept, and the result ends
    in white space that a second pass removes.  White space followed by
    any other rune: the rune is dropped (see C5), with the same effect. *)
Lemma Clean_not_idempotent :
  Clean "a \" = "a " /\ Clean (Clean "a \") = "a" /\
  Clean (Clean "a \") <> Clean "a \" /\
  Clean (Clean "a b") <> Clean "a b".
Proof. repeat split; discriminate. Qed.
(** * The code at the inputs where it departs from its documentation *)

(** C1 (the code at the failing input).  [Check] accepts "[a-b", a class
    that is never closed: the scan ends in [ClassRequire], which the final
    switch does not list with the other class states.  [Matcher.Add] stores
    it, and matching "a" against it makes [filepath.Match] return
    ErrBadPattern, so [match] panics. *)
Theorem Check_accepts_unclosed_class :
  Check "[a-b" = None /\
  Matcher_Add (New "") ["[a-b"] = (mkMatcher None "" ["[a-b"], None) /\
  filepath.Match "[a-b" "a" = None /\
  Matcher_Matches (mkMatcher None "" ["[a-b"]) "a" = Panic ErrBadPattern.
Proof. repeat split. Qed.

(** Other globs that [Check] accepts and [filepath.Match] refuses: a rune
    after a star or after white space is not classified ("*[", " [", "*\"),
    and [ClassRequire] is also reached by an escape that opens a class
    ("[\a"). *)
Example Check_accepts_more_bad_patterns :
  map Check ["*["; " ["; "*\"; "[\a"; "[^]"] = repeat None 5 /\
  map (fun p => filepath.Match p "a") ["*["; " ["; "*\"; "[\a"; "[^]"]
  = repeat None 5.
Proof. split; reflexivity. Qed.

(** C2 (the code at the failing input).  [Worker.AddFile] checks the line
    and stores [filepath.Join(base, s)], which it does not check.  From the
    file /x[/match.conf the line "a/b" is stored as "/x[/a/b", on which
    [Check] returns ErrIncompleteClass. *)
Theorem AddFile_stores_unchecked_path :
  Worker_AddFile os_bracket (mkWorker "/x[" [] []) "/x[/match.conf"
  = (mkWorker "/x[" ["/x[/a/b"] [], None) /\
  Check "a/b" = None /\
  Check "/x[/a/b" = Some (check.give 6 ErrIncompleteClass).
Proof. repeat split. Qed.

(** The same with an ordinary directory: [filepath.Join] cleans the
    pattern, and the line "a\/" is stored as "/d/a\", a trailing escape. *)
Example AddFile_stores_cleaned_path :
  Worker_AddFile os_bracket (mkWorker "/d" [] []) "/d/match.conf"
  = (mkWorker "/d" ["/d/a\"] [], None) /\
  Check "a\/" = None /\
  Check "/d/a\" = Some (check.give 4 ErrTrailingEscape) /\
  Worker_Matches (mkWorker "/d" ["/d/a\"] []) "a" = Panic ErrBadPattern.
Proof. repeat split. Qed.

(** What does hold: a glob that [add] appends passed [Check]. *)
Lemma addAll_appends_checked (globs : list string) :
  forall lst lst' err,
    addAll lst globs = (lst', err) ->
    Forall (fun g => Check g = None) lst ->
    Forall (fun g => Check g = None) lst'.
Proof.
  induction globs as [|g globs IH]; intros lst lst' err H Hl; simpl in H.
  - now injection H as <- _.
  - unfold add in H. destruct (Check g) eqn:Hg.
    + now injection H as <- _.
    + destruct (strings.ContainsByte g "/").
      * now injection H as <- _.
      * apply (IH _ _ _ H). apply Forall_app. split; [exact Hl|].
        constructor; [exact Hg|constructor].
Qed.

(** C4 (the code at the failing input).  [filepath.Clean("")] is ".", so
    the test [path == ""] of [Worker.Matches] never holds; the empty path
    becomes the working directory, whose base name "home" matches the
    global glob "*".  [Matcher.Matches] has no such test:
    [filepath.Base("")] is ".", which "*" matches. *)
Theorem Matches_empty_path :
  Matcher_Add (New "") ["*"] = (mkMatcher None "" ["*"], None) /\
  NewWorker 0 (mkOS (inl "/") (fun _ => inr (EOS true "")))
            (mkMatcher None "" ["*"]) "/home"
  = Some (inl (mkWorker "/home" [] ["*"])) /\
  filepath.Clean "" = "." /\
  Worker_Matches (mkWorker "/home" [] ["*"]) "" = Ret true /\
  Matcher_Matches (mkMatcher None "" ["*"]) "" = Ret true.
Proof. repeat split. Qed.

(** [filepath.Clean] never returns the empty string, whatever the loop
    leaves in [out]. *)
Lemma filepath_Clean_not_empty (path : string) : filepath.Clean path <> "".
Proof.
  unfold filepath.Clean. destruct path as [|c p]; [discriminate|].
  match goal with
  | |- (if (str_length ?o =? 0)%nat then _ else _) <> _ =>
    destruct o; simpl; discriminate
  end.
Qed.

(** So [Worker.Matches] never returns at [if path == ""]. *)
Lemma Worker_Matches_guard_dead (path : string) :
  String.eqb (filepath.Clean path) "" = false.
Proof. apply String.eqb_neq, filepath_Clean_not_empty. Qed.

(** C5 (the code at the failing input).  In state [Whitespace] a rune that
    is not white space flushes [sp] into [buf] and is itself dropped:
    [Clean "a b"] is "a ", not "a b". *)
Theorem Clean_drops_rune_after_space :
  Clean "a b" = "a " /\
  clean.step (clean.mkVars clean.Whitespace "a" " ") 98
  = Some (clean.mkVars clean.Regular "a " "").
Proof. split; reflexivity. Qed.

(** Whatever the buffers hold, the rune is absent from the next state. *)
Lemma step_Whitespace_drops (b p : string) (r : rune) :
  is_space r = false ->
  clean.step (clean.mkVars clean.Whitespace b p) r
  = Some (clean.mkVars clean.Regular (b ++ p)%string "").
Proof.
  intros H. unfold clean.step. cbn [clean.state clean.buf clean.sp].
  now rewrite H.
Qed.

(** The dropped rune can be a whole pattern, or the escape of the next one;
    the result then fails [Check]. *)
Example Clean_drops_more :
  Clean " a" = " " /\ Check (Clean " a") = Some (check.give 0 ErrTrailingWhitespace) /\
  Clean "a bc" = "a c" /\ Clean "a \ " = "a ".
Proof. repeat split. Qed.

(** C9 (the code at the failing input).  The loop of [NewWorker] leaves as
    soon as the parent is "/", before it reads the file there.  With
    /match.conf and /a/match.conf present, a worker for /a/b has the globs
    of /a/match.conf only; the file of the root is read only by a worker
    for "/" itself. *)
Theorem NewWorker_skips_root :
  NewWorker 3 os_root (New "match.conf") "/a/b"
  = Some (inl (mkWorker "/a/b" ["aglob"] [])) /\
  NewWorker 3 os_root (New "match.conf") "/a"
  = Some (inl (mkWorker "/a" ["aglob"] [])) /\
  NewWorker 3 os_root (New "match.conf") "/"
  = Some (inl (mkWorker "/" ["rootglob"] [])).
Proof. repeat split. Qed.

(** * More on the validator *)

Section CheckMore.

Import check.

Lemma runes_length_le (s : string) :
  (List.length (utf8.runes s) <= String.length s)%nat.
Proof.
  remember (String.length s) as k eqn:Hk.
  revert s Hk. induction k as [k IH] using lt_wf_ind. intros s Hk.
  destruct s as [|c0 s1]; [simpl; lia|].
  rewrite runes_cons.
  pose proof (DecodeRuneInString_decodes c0 s1) as H.
  destruct (decodes_width _ _ _ H) as (c & pre & _ & Hn).
  cbn [List.length].
  assert (Hd : (String.length (drop (snd (utf8.DecodeRuneInString (String c0 s1)))
                                    (String c0 s1)) < k)%nat).
  { rewrite drop_length, Hk, <- Hn. simpl. lia. }
  specialize (IH _ Hd _ eq_refl). lia.
Qed.

Lemma runes_nil (s : string) : utf8.runes s = [] <-> s = "".
Proof.
  split; [|now intros ->].
  destruct s as [|c s]; [reflexivity|]. rewrite runes_cons. discriminate.
Qed.

(** After the first rune the state is never [Initial] again, and state
    [Escape] knows where to return. *)
Lemma step_escape_target (v v' : vars) (r : rune) :
  state v = Initial \/ escape_target v ->
  step v r = inl v' -> escape_target v'.
Proof.
  unfold escape_target, step, regular, classMiddle.
  intros H Hs.
  destruct (state v) eqn:Es.
  9: { (* Escape: the state becomes [next v] *)
    injection Hs as <-. cbn [state next].
    destruct H as [H | [_ H]]; [discriminate|].
    specialize (H eq_refl).
    split; [destruct H as [-> | [-> | ->]]; discriminate|].
    intros E. destruct H as [H | [H | H]]; rewrite H in E; discriminate. }
  all: repeat match type of Hs with
              | context [if ?c then _ else _] => destruct c
              end;
    try discriminate; injection Hs as <-; cbn [state next]; rewrite ?Es;
    (split; [discriminate | intros E; try discriminate E; auto]).
Qed.

Lemma loop_escape_target (rs : list rune) :
  forall column v column' v',
    state v = Initial \/ escape_target v ->
    loop rs column v = inl (column', v') ->
    rs <> [] -> escape_target v'.
Proof.
  induction rs as [|r rs IH]; intros column v column' v' Hv H Hne;
    [contradiction|].
  simpl in H. destruct (step v r) as [v1|e] eqn:Hs; [|discriminate].
  pose proof (step_escape_target _ _ _ Hv Hs) as H1.
  destruct rs as [|r' rs'].
  - simpl in H. now injection H as _ <-.
  - apply (IH _ _ _ _ (or_intror H1) H). discriminate.
Qed.

End CheckMore.

(** X1.  An error of [Check] is outside any file ([Line] is -1 and [File]
    is empty), and its [Column] is at least -1 and less than the number of
    runes of the glob, hence less than its number of bytes. *)
Theorem Check_error_fields (glob : string) (pe : BadPatternError) :
  Check glob = Some pe ->
  Line pe = -1 /\ File pe = "" /\
  -1 <= Column pe < Z.of_nat (List.length (utf8.runes glob)) /\
  Column pe < Z.of_nat (String.length glob).
Proof.
  intros H. pose proof (runes_length_le glob) as Hle.
  assert (Line pe = -1 /\ File pe = "" /\
          -1 <= Column pe < Z.of_nat (List.length (utf8.runes glob))) as G;
    [|intuition lia].
  unfold Check in H.
  destruct (check.loop (utf8.runes glob) (-1) check.init)
    as [[column v]|pe'] eqn:Hl.
  - pose proof (loop_column _ _ _ _ _ Hl) as Hc.
    destruct (utf8.runes glob) as [|r rs] eqn:Hr.
    + simpl in Hl. injection Hl as <- <-. simpl in H. injection H as <-.
      cbn [Line File Column check.give List.length].
      repeat split; try reflexivity; lia.
    + destruct (check.state v); simpl in H; try discriminate;
        try contradiction; injection H as <-;
        cbn [Line File Column check.give List.length] in *;
        repeat split; try reflexivity; lia.
  - injection H as ->.
    destruct (loop_fails _ _ _ _ Hl) as (pre & r & post & v' & Hrs & _ & _ & Hpe).
    rewrite Hrs, length_app. rewrite Hpe.
    cbn [Line File Column check.give List.length].
    repeat split; try reflexivity; lia.
Qed.

Lemma Check_error_fields_witness :
  Check "ab[ζ-a]" = Some (check.give 5 ErrNegativeRange) /\
  -1 <= Column (check.give 5 ErrNegativeRange)
  < Z.of_nat (List.length (utf8.runes "ab[ζ-a]")) /\
  Column (check.give 5 ErrNegativeRange)
  < Z.of_nat (String.length "ab[ζ-a]").
Proof.
  split; [reflexivity|].
  exact (proj2 (proj2 (Check_error_fields "ab[ζ-a]" _ eq_refl))).
Defined.

(** X2.  [Check] gives ErrEmptyGlob for the empty string and for no other
    glob. *)
Theorem Check_EmptyGlob_iff (glob : string) :
  err_of (Check glob) = Some ErrEmptyGlob <-> glob = "".
Proof.
  split; [|now intros ->].
  intros H. destruct glob as [|c s]; [reflexivity|]. exfalso.
  unfold Check in H.
  destruct (check.loop (utf8.runes (String c s)) (-1) check.init)
    as [[column v]|pe] eqn:Hl.
  - assert (Hne : utf8.runes (String c s) <> [])
      by (rewrite runes_cons; discriminate).
    destruct (loop_escape_target _ (-1) check.init column v
                                 (or_introl eq_refl) Hl Hne) as [Hv _].
    destruct (check.state v); try contradiction; discriminate.
  - destruct (loop_fails _ _ _ _ Hl) as (_ & r & _ & v' & _ & _ & Hst & _).
    apply step_error_in_scan in Hst. simpl in H.
    injection H as H. rewrite H in Hst. discriminate.
Qed.

Section CheckOrdinary.

Import check.

Lemma step_ordinary (v : vars) (r : rune) :
  state v = Initial \/ state v = Regular ->
  ordinary r = true ->
  step v r = inl (mkVars Regular (last v) (next v)).
Proof.
  unfold ordinary, step, regular. intros Hv Hr.
  apply negb_true_iff in Hr. apply orb_false_iff in Hr as [Hr Hs].
  apply orb_false_iff in Hr as [Hr Hb]. apply orb_false_iff in Hr as [Hl Hr].
  destruct Hv as [-> | ->]; now rewrite Hl, Hr, Hb, Hs.
Qed.

Lemma loop_ordinary (rs : list rune) :
  forall column v,
    state v = Initial \/ state v = Regular ->
    Forall (fun r => ordinary r = true) rs ->
    exists v', loop rs column v = inl (column + Z.of_nat (List.length rs), v')
               /\ (rs <> [] -> state v' = Regular).
Proof.
  induction rs as [|r rs IH]; intros column v Hv H.
  - exists v. simpl. rewrite Z.add_0_r. split; [reflexivity | contradiction].
  - inversion H as [|? ? Hr Hrs]; subst. simpl loop.
    rewrite (step_ordinary _ _ Hv Hr).
    destruct (IH (column + 1) (mkVars Regular (last v) (next v))
                 (or_intror eq_refl) Hrs) as (v' & Hl & Hst).
    exists v'. split.
    + rewrite Hl. do 2 f_equal. cbn [List.length]. lia.
    + intros _. destruct rs as [|r' rs']; [|apply Hst; discriminate].
      simpl in Hl. now injection Hl as _ <-.
Qed.

End CheckOrdinary.

(** X3.  A glob that is not empty and has none of the runes '[', '*', '\\',
    space, tab and newline passes [Check]. *)
Theorem Check_ordinary (glob : string) :
  glob <> "" ->
  Forall (fun r => ordinary r = true) (utf8.runes glob) ->
  Check glob = None.
Proof.
  intros Hne H. unfold Check.
  destruct (loop_ordinary (utf8.runes glob) (-1) check.init
                          (or_introl eq_refl) H) as (v' & -> & Hst).
  rewrite Hst; [reflexivity|]. intros E. now apply runes_nil in E.
Qed.

Lemma Check_ordinary_witness :
  "Makefile.δ?" <> "" /\
  Forall (fun r => ordinary r = true) (utf8.runes "Makefile.δ?") /\
  Check "Makefile.δ?" = None.
Proof.
  assert (H1 : "Makefile.δ?" <> "") by discriminate.
  assert (H2 : Forall (fun r => ordinary r = true) (utf8.runes "Makefile.δ?"))
    by (repeat constructor).
  exact (conj H1 (conj H2 (Check_ordinary "Makefile.δ?" H1 H2))).
Defined.

(** X4.  An error raised inside the scan depends only on the runes up to
    the one that raised it: a glob whose runes extend those of a glob that
    fails inside the scan fails with the same error at the same column. *)
Theorem Check_error_extends (glob glob' : string) (rest : list rune)
        (pe : BadPatternError) :
  Check glob = Some pe ->
  at_end_of_input (Err pe) = false ->
  utf8.runes glob' = utf8.runes glob ++ rest ->
  Check glob' = Some pe.
Proof.
  unfold Check. intros H He Hr.
  destruct (check.loop (utf8.runes glob) (-1) check.init)
    as [[column v]|pe'] eqn:Hl.
  - apply finish_error_at_end in H. destruct H as [H _]. congruence.
  - injection H as ->.
    destruct (loop_fails _ _ _ _ Hl) as (pre & r & post & v' & Hrs & Hpre & Hst & Hpe).
    rewrite Hr, Hrs, <- app_assoc, (loop_app _ _ _ _ _ _ Hpre).
    simpl. rewrite Hst. rewrite Hpe at 2. reflexivity.
Qed.

Lemma Check_error_extends_witness :
  Check "a[]b" = Some (check.give 2 ErrEmptyClass) /\
  Check "a[]b]c**" = Some (check.give 2 ErrEmptyClass).
Proof.
  split; [reflexivity|].
  exact (Check_error_extends "a[]b" "a[]b]c**" (utf8.runes "]c**") _
                             eq_refl eq_refl eq_refl).
Defined.

Section CheckShapes.

Import check.

(** The subtraction [r - last] of [Check] does not wrap on code points. *)
Lemma int32_sub_runes (r l : rune) :
  0 <= r <= utf8.MaxRune -> 0 <= l <= utf8.MaxRune ->
  (int32 (r - l) <? 0) = (r <? l).
Proof.
  unfold utf8.MaxRune, int32. intros Hr Hl.
  rewrite Z.mod_small by lia.
  destruct (Z.ltb_spec (r - l + 2 ^ 31 - 2 ^ 31) 0);
    destruct (Z.ltb_spec r l); try reflexivity; lia.
Qed.

Lemma loop_app_inv (pre post : list rune) :
  forall column v column' v',
    loop (pre ++ post) column v = inl (column', v') ->
    exists c1 v1, loop pre column v = inl (c1, v1) /\
                  loop post c1 v1 = inl (column', v').
Proof.
  induction pre as [|r pre IH]; intros column v column' v' H.
  - exists column, v. split; [reflexivity | exact H].
  - simpl in H |- *. destruct (step v r) as [v1|e]; [|discriminate].
    now apply IH.
Qed.

(** The state before the last rune of a scan that got through. *)
Lemma loop_last (pre : list rune) (r : rune) (column' : Z) (v' : vars) :
  loop (pre ++ [r]) (-1) init = inl (column', v') ->
  exists c v, loop pre (-1) init = inl (c, v) /\
              (state v = Initial \/ escape_target v) /\
              step v r = inl v'.
Proof.
  intros H. destruct (loop_app_inv _ _ _ _ _ _ H) as (c & v & Hp & Hr).
  exists c, v. split; [exact Hp|]. split.
  - destruct pre as [|x pre].
    + simpl in Hp. injection Hp as _ <-. now left.
    + right. apply (loop_escape_target (x :: pre) (-1) init c v);
        [now left | exact Hp | discriminate].
  - simpl in Hr. destruct (step v r); [|discriminate].
    now injection Hr as _ ->.
Qed.

(** Which rune leads into a state. *)
Lemma step_into (v v' : vars) (r : rune) :
  state v = Initial \/ escape_target v ->
  step v r = inl v' ->
  match state v' with
  | Whitespace => is_space r = true
  | Escape => r = r_bslash
  | Star => r = r_star
  | DualStar => r = r_star /\ state v = Star
  | ClassBegin => r = r_lbrack
  | ClassRange => r = r_minus
  | _ => True
  end.
Proof.
  unfold escape_target, step, regular, classMiddle. intros H Hs.
  destruct (state v) eqn:Es.
  9: { injection Hs as <-. cbn [state].
       destruct H as [H | [_ H]]; [discriminate|].
       destruct (H eq_refl) as [-> | [-> | ->]]; exact I. }
  all: repeat match type of Hs with
              | context [if ?c then _ else _] => destruct c eqn:?
              end;
    try discriminate; injection Hs as <-; cbn [state]; rewrite ?Es;
    try exact I; try reflexivity; try (split; [|reflexivity]);
    try (apply Z.eqb_eq; assumption); try assumption.
Qed.

(** Which state raises which error. *)
Lemma step_error_state (v : vars) (r : rune) (e : PatternErr) :
  step v r = inr e ->
  match e with
  | ErrDualStar => state v = DualStar
  | ErrEmptyClass => state v = ClassBegin /\ r = r_rbrack
  | ErrNegativeRange =>
    state v = ClassRange /\ (int32 (r - last v) <? 0) = true
  | _ => True
  end.
Proof.
  unfold step, regular, classMiddle. intros Hs.
  destruct (state v) eqn:Es;
    repeat match type of Hs with
           | context [if ?c then _ else _] => destruct c eqn:?
           end;
    try discriminate; injection Hs as <-; try exact I; try reflexivity;
    split; try reflexivity; try (apply Z.eqb_eq; assumption); assumption.
Qed.

End CheckShapes.

(** X5.  A class with one range, [lo-hi], is accepted when [lo <= hi] by
    code point, and refused with ErrNegativeRange at the column of [hi]
    otherwise: on the runes of a string the [int32] subtraction of [Check]
    does not wrap. *)
Theorem Check_single_range (glob : string) (lo hi : rune) :
  utf8.runes glob = [r_lbrack; lo; r_minus; hi; r_rbrack] ->
  lo <> r_rbrack -> lo <> r_minus -> lo <> r_bslash ->
  hi <> r_rbrack -> hi <> r_minus -> hi <> r_bslash ->
  Check glob = if hi <? lo then Some (check.give 3 ErrNegativeRange) else None.
Proof.
  intros Hr L1 L2 L3 H1 H2 H3.
  pose proof (runes_valid glob) as Hv. rewrite Hr in Hv.
  inversion Hv as [|? ? _ Hv1]; subst. inversion Hv1 as [|? ? [Hlo _] Hv2]; subst.
  inversion Hv2 as [|? ? _ Hv3]; subst. inversion Hv3 as [|? ? [Hhi _] _]; subst.
  apply Z.eqb_neq in L1, L2, L3, H1, H2, H3.
  unfold Check. rewrite Hr. cbn [check.loop].
  assert (S0 : check.step check.init r_lbrack
               = inl (check.mkVars check.ClassBegin 0 check.Initial))
    by reflexivity.
  assert (S1 : check.step (check.mkVars check.ClassBegin 0 check.Initial) lo
               = inl (check.mkVars check.ClassMiddle lo check.Initial))
    by (unfold check.step; cbn [check.state check.next]; now rewrite L1, L2, L3).
  assert (S2 : check.step (check.mkVars check.ClassMiddle lo check.Initial) r_minus
               = inl (check.mkVars check.ClassRange lo check.Initial))
    by reflexivity.
  assert (S3 : check.step (check.mkVars check.ClassRange lo check.Initial) hi
               = if hi <? lo then inr ErrNegativeRange
                 else inl (check.mkVars check.ClassRequire lo check.Initial)).
  { unfold check.step. cbn [check.state check.last check.next].
    rewrite H1, H2, H3. cbn [orb].
    now rewrite (int32_sub_runes hi lo Hhi Hlo). }
  assert (S4 : check.step (check.mkVars check.ClassRequire lo check.Initial)
                          r_rbrack
               = inl (check.mkVars check.Regular lo check.Initial))
    by reflexivity.
  rewrite S0, S1, S2, S3. destruct (hi <? lo); [reflexivity|].
  rewrite S4. reflexivity.
Qed.

Lemma Check_single_range_witness :
  Check "[a-ζ]" = None /\ Check "[ζ-a]" = Some (check.give 3 ErrNegativeRange).
Proof.
  split.
  - exact (Check_single_range "[a-ζ]" 97 950 eq_refl
             ltac:(discriminate) ltac:(discriminate) ltac:(discriminate)
             ltac:(discriminate) ltac:(discriminate) ltac:(discriminate)).
  - exact (Check_single_range "[ζ-a]" 950 97 eq_refl
             ltac:(discriminate) ltac:(discriminate) ltac:(discriminate)
             ltac:(discriminate) ltac:(discriminate) ltac:(discriminate)).
Defined.

(** X6.  ErrTrailingWhitespace is given only to a glob whose last rune is a
    space, tab or newline, and ErrTrailingEscape only to a glob whose last
    rune is a backslash. *)
Theorem Check_trailing_errors (glob : string) (pe : BadPatternError) :
  Check glob = Some pe ->
  (Err pe = ErrTrailingWhitespace ->
   exists pre r, utf8.runes glob = pre ++ [r] /\ is_space r = true) /\
  (Err pe = ErrTrailingEscape ->
   exists pre, utf8.runes glob = pre ++ [r_bslash]).
Proof.
  unfold Check. intros H.
  destruct (check.loop (utf8.runes glob) (-1) check.init)
    as [[column v]|pe'] eqn:Hl.
  - destruct (utf8.runes glob) as [|x rs] eqn:Hr using rev_ind.
    + simpl in Hl. injection Hl as <- <-. simpl in H. injection H as <-.
      split; discriminate.
    + clear IHrs.
      destruct (loop_last _ _ _ _ Hl) as (c & v0 & _ & Hv0 & Hst).
      pose proof (step_into _ _ _ Hv0 Hst) as Hin.
      destruct (check.state v); simpl in H; try discriminate;
        injection H as <-; cbn [Err check.give];
        (split; [intros E | intros E]); try discriminate.
      * exists rs. now rewrite Hin.
      * exists rs, x. now split.
  - injection H as ->.
    destruct (loop_fails _ _ _ _ Hl) as (_ & r & _ & v' & _ & _ & Hst & _).
    apply step_error_in_scan in Hst.
    split; intros E; rewrite E in Hst; discriminate.
Qed.

Lemma Check_trailing_errors_witness :
  Check "a\ b\" = Some (check.give 4 ErrTrailingEscape) /\
  exists pre, utf8.runes "a\ b\" = pre ++ [r_bslash].
Proof.
  split; [reflexivity|].
  exact (proj2 (Check_trailing_errors "a\ b\" _ eq_refl) eq_refl).
Defined.

(** X7.  ErrDualStar is raised at the rune that follows two adjacent stars,
    and ErrEmptyClass at a ']' that follows a '['. *)
Theorem Check_DualStar_EmptyClass_shape (glob : string) (pe : BadPatternError) :
  Check glob = Some pe ->
  (Err pe = ErrDualStar ->
   exists pre r post,
     utf8.runes glob = pre ++ r_star :: r_star :: r :: post /\
     Column pe = Z.of_nat (List.length pre) + 2) /\
  (Err pe = ErrEmptyClass ->
   exists pre post,
     utf8.runes glob = pre ++ r_lbrack :: r_rbrack :: post /\
     Column pe = Z.of_nat (List.length pre) + 1).
Proof.
  unfold Check. intros H.
  destruct (check.loop (utf8.runes glob) (-1) check.init)
    as [[column v]|pe'] eqn:Hl.
  - apply finish_error_at_end in H. destruct H as [H _].
    split; intros E; rewrite E in H; discriminate.
  - injection H as ->.
    destruct (loop_fails _ _ _ _ Hl) as (p & r & post & v' & Hrs & Hp & Hst & Hpe).
    pose proof (step_error_state _ _ _ Hst) as Hes.
    assert (Hc : Column pe = Z.of_nat (List.length p))
      by (rewrite Hpe; unfold check.give; cbn [Column]; lia).
    split; intros E; rewrite E in Hes.
    + (* the state before [r] is DualStar *)
      induction p as [|a p1 IHp1] using rev_ind;
        [simpl in Hp; inversion Hp; subst; discriminate|]. clear IHp1.
      destruct (loop_last _ _ _ _ Hp) as (c1 & v1 & Hp1 & Hv1 & Hs1).
      pose proof (step_into _ _ _ Hv1 Hs1) as Hi1. rewrite Hes in Hi1.
      destruct Hi1 as [-> Hstar].
      induction p1 as [|b p2 IHp2] using rev_ind;
        [simpl in Hp1; inversion Hp1; subst; discriminate|]. clear IHp2.
      destruct (loop_last _ _ _ _ Hp1) as (c2 & v2 & _ & Hv2 & Hs2).
      pose proof (step_into _ _ _ Hv2 Hs2) as Hi2. rewrite Hstar in Hi2.
      subst b. exists p2, r, post. split.
      * rewrite Hrs, <- !app_assoc. reflexivity.
      * rewrite Hc, !length_app. simpl List.length. lia.
    + destruct Hes as [Hcb ->].
      induction p as [|a p1 IHp1] using rev_ind;
        [simpl in Hp; inversion Hp; subst; discriminate|]. clear IHp1.
      destruct (loop_last _ _ _ _ Hp) as (c1 & v1 & _ & Hv1 & Hs1).
      pose proof (step_into _ _ _ Hv1 Hs1) as Hi1. rewrite Hcb in Hi1.
      subst a. exists p1, post. split.
      * rewrite Hrs, <- app_assoc. reflexivity.
      * rewrite Hc, length_app. simpl List.length. lia.
Qed.

Lemma Check_DualStar_EmptyClass_shape_witness :
  Check "foo/**/bar" = Some (check.give 6 ErrDualStar) /\
  exists pre r post,
    utf8.runes "foo/**/bar" = pre ++ r_star :: r_star :: r :: post /\
    Column (check.give 6 ErrDualStar) = Z.of_nat (List.length pre) + 2.
Proof.
  split; [reflexivity|].
  exact (proj1 (Check_DualStar_EmptyClass_shape "foo/**/bar" _ eq_refl) eq_refl).
Defined.

(** * More on UTF-8: an ASCII byte ends every sequence *)

Lemma Decode_append_ascii (c0 : ascii) (s1 : string) (c : ascii) (t : string) :
  byte_val c < 128 ->
  utf8.DecodeRuneInString (String c0 (s1 ++ String c t))
  = utf8.DecodeRuneInString (String c0 s1).
Proof.
  intros Hc. unfold utf8.DecodeRuneInString.
  pose proof (first_cases (byte_val c0)) as Hf.
  destruct (utf8.first (byte_val c0)) as [| |sz lo hi]; try reflexivity.
  assert (Hlo : 128 <= lo) by lia.
  assert (Hsz : sz = 2%nat \/ sz = 3%nat \/ sz = 4%nat) by lia.
  clear Hf. unfold utf8.locb, utf8.hicb.
  destruct s1 as [|c1 s2]; [|destruct s2 as [|c2 s3]; [|destruct s3 as [|c3 s4]]];
    cbn [append str_length String.length];
    destruct Hsz as [-> | [-> | ->]]; cbn [Nat.ltb Nat.leb];
    repeat match goal with
           | |- context [(?a <? ?b) || (?c <? ?d)] =>
             destruct (Z.ltb_spec a b); destruct (Z.ltb_spec c d);
             cbn [orb]; try lia; try reflexivity
           | |- context [match ?t with EmptyString => _ | String _ _ => _ end] =>
             destruct t; try reflexivity
           | |- context [if ?b then _ else _] => destruct b; try reflexivity
           end; try reflexivity.
Qed.

Lemma str_length_append (a b : string) :
  String.length (a ++ b) = (String.length a + String.length b)%nat.
Proof. induction a as [|c a IH]; simpl; [reflexivity | now rewrite IH]. Qed.

Lemma drop_append_le (n : nat) :
  forall s t, (n <= String.length s)%nat -> drop n (s ++ t) = (drop n s ++ t)%string.
Proof.
  induction n as [|n IH]; intros [|c s] t H; simpl in *; try reflexivity; try lia.
  apply IH. lia.
Qed.

(** The runes of a string followed by an ASCII byte: the byte is never
    taken into a sequence begun before it. *)
Lemma runes_append_ascii (c : ascii) (t s : string) :
  byte_val c < 128 ->
  utf8.runes (s ++ String c t) = utf8.runes s ++ utf8.runes (String c t).
Proof.
  intros Hc. remember (String.length s) as k eqn:Hk.
  revert s Hk. induction k as [k IH] using lt_wf_ind. intros s Hk.
  destruct s as [|c0 s1]; [reflexivity|].
  change (String c0 s1 ++ String c t)%string with (String c0 (s1 ++ String c t)).
  rewrite (runes_cons c0 (s1 ++ String c t)), (runes_cons c0 s1).
  rewrite Decode_append_ascii by exact Hc.
  pose proof (DecodeRuneInString_decodes c0 s1) as H.
  destruct (decodes_width _ _ _ H) as (x & pre & Hsplit & Hn).
  set (n := snd (utf8.DecodeRuneInString (String c0 s1))) in *.
  assert (Hle : (n <= String.length (String c0 s1))%nat).
  { pose proof (f_equal String.length Hsplit) as Hlen.
    rewrite str_length_append in Hlen. lia. }
  change (String c0 (s1 ++ String c t)) with (String c0 s1 ++ String c t)%string.
  rewrite (drop_append_le n _ _ Hle). cbn [app]. f_equal.
  apply (IH (String.length (drop n (String c0 s1)))); [|reflexivity].
  rewrite drop_length, Hk, <- Hn. simpl. lia.
Qed.

Lemma runes_ascii_head (c : ascii) (t : string) :
  byte_val c < 128 -> utf8.runes (String c t) = byte_val c :: utf8.runes t.
Proof.
  intros H. rewrite runes_cons, Decode_1 by exact H. reflexivity.
Qed.

Lemma runes_bytes (s : string) :
  Forall (fun b => b < 128) (bytes s) -> utf8.runes s = bytes s.
Proof.
  induction s as [|c s IH]; intros H; [reflexivity|].
  inversion H as [|? ? Hc Hs]; subst.
  rewrite runes_ascii_head by exact Hc. simpl. now rewrite IH.
Qed.

Lemma runes_append_bytes (s t : string) :
  Forall (fun b => b < 128) (bytes t) ->
  utf8.runes (s ++ t) = utf8.runes s ++ bytes t.
Proof.
  intros H. destruct t as [|c t].
  - now rewrite append_empty_r, app_nil_r.
  - inversion H as [|? ? Hc Ht]; subst.
    rewrite runes_append_ascii by exact Hc.
    now rewrite (runes_bytes (String c t)).
Qed.

(** * More on the normalizer *)

Section CleanMore.

Import clean.

Lemma loop_scan (rs : list rune) :
  forall v, loop rs v = match clean_scan rs v with
                        | None => ""
                        | Some v' => buf v'
                        end.
Proof.
  induction rs as [|r rs IH]; intros v; [reflexivity|].
  simpl. destruct (step v r); [apply IH | reflexivity].
Qed.

Lemma clean_scan_app (rs1 rs2 : list rune) :
  forall v, clean_scan (rs1 ++ rs2) v
            = match clean_scan rs1 v with
              | None => None
              | Some v' => clean_scan rs2 v'
              end.
Proof.
  induction rs1 as [|r rs1 IH]; intros v; [reflexivity|].
  simpl. destruct (step v r); [apply IH | reflexivity].
Qed.

(** White space leaves [buf] as it is, unless a backslash escapes it. *)
Lemma clean_scan_spaces (ws : list rune) :
  forall v,
    Forall (fun r => is_space r = true) ws ->
    state v <> Escape ->
    exists v', clean_scan ws v = Some v' /\ buf v' = buf v /\
               state v' <> Escape.
Proof.
  induction ws as [|r ws IH]; intros v H Hst.
  - exists v. auto.
  - inversion H as [|? ? Hr Hws]; subst. simpl.
    assert (Hh : (r =? r_hash) = false).
    { unfold is_space in Hr. unfold r_hash, r_space, r_tab, r_newline in *.
      destruct (Z.eqb_spec r 35); [subst; discriminate | reflexivity]. }
    assert (E : exists v1, step v r = Some v1 /\ buf v1 = buf v /\
                           state v1 = Whitespace).
    { unfold step, regular. destruct (state v); try contradiction;
        rewrite ?Hh, Hr; eexists; (split; [reflexivity|]); auto. }
    destruct E as (v1 & -> & Hb & Hs).
    destruct (IH v1 Hws) as (v' & Hv' & Hb' & Hs'); [rewrite Hs; discriminate|].
    exists v'. rewrite Hv', Hb', Hb. auto.
Qed.

End CleanMore.

Lemma Clean_scan (s : string) :
  Clean s = match clean_scan (utf8.runes s) clean.init with
            | None => ""
            | Some v => clean.buf v
            end.
Proof. apply loop_scan. Qed.

(** X8.  A line that begins with '#' is a comment: [Clean] returns the
    empty string, whatever follows. *)
Theorem Clean_comment_line (s : string) : Clean (String "#" s) = "".
Proof.
  unfold Clean. rewrite runes_ascii_head by (vm_compute; reflexivity).
  reflexivity.
Qed.

(** X9.  Trailing white space is removed unless escaped: when the scan of
    [s] does not end in state [Escape] (no backslash is pending), spaces,
    tabs and newlines appended to [s] do not change the result. *)
Theorem Clean_trailing_whitespace (s ws : string) :
  Forall (fun b => is_space b = true) (bytes ws) ->
  clean_final s <> Some clean.Escape ->
  Clean (s ++ ws) = Clean s.
Proof.
  intros Hws Hf.
  assert (Ha : Forall (fun b => b < 128) (bytes ws)).
  { eapply Forall_impl; [|exact Hws]. intros b Hb. simpl in Hb.
    unfold is_space, r_space, r_tab, r_newline in Hb.
    destruct (Z.eqb_spec b 32); [lia|]. destruct (Z.eqb_spec b 9); [lia|].
    destruct (Z.eqb_spec b 10); [lia | discriminate]. }
  rewrite !Clean_scan, runes_append_bytes, clean_scan_app by exact Ha.
  unfold clean_final in Hf.
  destruct (clean_scan (utf8.runes s) clean.init) as [v|]; [|reflexivity].
  destruct (clean_scan_spaces (bytes ws) v Hws) as (v' & -> & Hb & _).
  - intros E. apply Hf. simpl. now rewrite E.
  - exact Hb.
Qed.

Lemma Clean_trailing_whitespace_witness :
  clean_final "doc/*.html" <> Some clean.Escape /\
  Clean ("doc/*.html" ++ "  ") = Clean "doc/*.html".
Proof.
  assert (H : clean_final "doc/*.html" <> Some clean.Escape) by discriminate.
  split; [exact H|].
  apply Clean_trailing_whitespace; [repeat constructor | exact H].
Defined.

Lemma to_byte_byte_val (c : ascii) : to_byte (byte_val c) = c.
Proof.
  unfold to_byte. pose proof (byte_val_range c).
  rewrite Z.mod_small by lia. unfold byte_val.
  rewrite N2Z.id. apply ascii_N_embedding.
Qed.

Lemma AppendRune_ascii (c : ascii) :
  byte_val c < 128 -> utf8.AppendRune (byte_val c) = String c "".
Proof.
  intros H. pose proof (byte_val_range c). unfold utf8.AppendRune, uint32.
  rewrite Z.mod_small by lia.
  destruct (Z.leb_spec (byte_val c) 127); [|lia].
  now rewrite to_byte_byte_val.
Qed.

(** X10.  A backslash escapes the byte that follows it: when the scan of
    [s] ends in state [Escape], an ASCII byte appended to [s] is kept, after
    the backslash, even when it is white space. *)
Theorem Clean_escaped_byte (s : string) (c : ascii) :
  byte_val c < 128 ->
  clean_final s = Some clean.Escape ->
  Clean (s ++ String c "") = (Clean s ++ "\" ++ String c "")%string.
Proof.
  intros Hc Hf.
  rewrite !Clean_scan, runes_append_bytes, clean_scan_app
    by (repeat constructor; exact Hc).
  unfold clean_final in Hf.
  destruct (clean_scan (utf8.runes s) clean.init) as [v|]; [|discriminate].
  simpl in Hf. injection Hf as Hst.
  cbn [bytes clean_scan]. unfold clean.step. rewrite Hst.
  cbn [clean.buf]. unfold WriteRune.
  rewrite AppendRune_ascii by exact Hc.
  now rewrite append_assoc.
Qed.

Lemma Clean_escaped_byte_witness :
  clean_final "foo\" = Some clean.Escape /\
  Clean ("foo\" ++ " ") = (Clean "foo\" ++ "\" ++ " ")%string /\
  Clean "foo\ " = "foo\ ".
Proof.
  split; [reflexivity|]. split; [|reflexivity].
  exact (Clean_escaped_byte "foo\" " " ltac:(vm_compute; reflexivity) eq_refl).
Defined.

(** X11.  A sole trailing escape character is removed: when the scan of
    [s] ends in state [Regular], or [s] is empty, a backslash appended to
    [s] does not change the result. *)
Theorem Clean_trailing_escape_removed (s : string) :
  clean_final s = Some clean.Regular \/ clean_final s = Some clean.Initial ->
  Clean (s ++ "\") = Clean s.
Proof.
  intros Hf.
  rewrite !Clean_scan, runes_append_bytes, clean_scan_app
    by (repeat constructor; vm_compute; reflexivity).
  unfold clean_final in Hf.
  destruct (clean_scan (utf8.runes s) clean.init) as [v|];
    [|destruct Hf; discriminate].
  simpl in Hf. cbn [bytes clean_scan]. unfold clean.step.
  destruct Hf as [Hf | Hf]; injection Hf as ->; reflexivity.
Qed.

Lemma Clean_trailing_escape_removed_witness :
  clean_final "a\\b" = Some clean.Regular /\
  Clean ("a\\b" ++ "\") = Clean "a\\b".
Proof.
  split; [reflexivity|].
  apply Clean_trailing_escape_removed. left. reflexivity.
Defined.

Section CleanWritten.

Import clean.

Lemma WriteRunes_app (a b : list rune) :
  WriteRunes (a ++ b) = (WriteRunes a ++ WriteRunes b)%string.
Proof.
  induction a as [|r a IH]; [reflexivity|].
  simpl. now rewrite IH, append_assoc.
Qed.

Lemma WriteRune_written (b : list rune) (r : rune) :
  WriteRune (WriteRunes b) r = WriteRunes (b ++ [r]).
Proof.
  unfold WriteRune. rewrite WriteRunes_app. simpl. now rewrite append_empty_r.
Qed.

Lemma step_written (v v' : vars) (r : rune) :
  utf8.valid r -> written v -> step v r = Some v' -> written v'.
Proof.
  assert (Hbs : utf8.valid r_bslash)
    by (unfold utf8.valid, r_bslash, utf8.MaxRune, utf8.surrogateMin; lia).
  intros Hr (b & p & Hb & Hp & Eb & Ep) Hs.
  unfold step, regular in Hs. rewrite Eb, Ep in Hs.
  assert (Hbr : Forall utf8.valid (b ++ [r])) by (apply Forall_app; auto).
  assert (Hpr : Forall utf8.valid (p ++ [r])) by (apply Forall_app; auto).
  assert (Hbp : Forall utf8.valid (b ++ p)) by (apply Forall_app; auto).
  assert (Hbe : Forall utf8.valid ((b ++ [r_bslash]) ++ [r]))
    by (repeat (apply Forall_app; split; auto)).
  unfold written.
  destruct (state v);
    repeat match type of Hs with
           | context [if ?c then _ else _] => destruct c
           end;
    try discriminate; injection Hs as <-; cbn [buf sp];
    rewrite ?WriteRune_written;
    first [ solve [exists b, (p ++ [r]); auto]
          | solve [exists b, p; auto]
          | solve [exists (b ++ [r]), p; auto]
          | solve [exists ((b ++ [r_bslash]) ++ [r]), p; auto]
          | exists (b ++ p), []; rewrite WriteRunes_app; auto ].
Qed.

Lemma clean_scan_written (rs : list rune) :
  forall v v',
    Forall utf8.valid rs -> written v ->
    clean_scan rs v = Some v' -> written v'.
Proof.
  induction rs as [|r rs IH]; intros v v' Hrs Hv H.
  - simpl in H. now injection H as <-.
  - inversion Hrs as [|? ? Hr Hrs']; subst. simpl in H.
    destruct (step v r) as [v1|] eqn:Hs; [|discriminate].
    exact (IH _ _ Hrs' (step_written _ _ _ Hr Hv Hs) H).
Qed.

End CleanWritten.

(** X12.  The result of [Clean] is well-formed UTF-8, also when its
    argument is not: decoding it and encoding the runes again gives the
    same bytes. *)
Theorem Clean_well_formed (s : string) :
  WriteRunes (utf8.runes (Clean s)) = Clean s.
Proof.
  rewrite Clean_scan.
  destruct (clean_scan (utf8.runes s) clean.init) as [v|] eqn:Hs;
    [|reflexivity].
  assert (Hw : written v).
  { apply (clean_scan_written (utf8.runes s) clean.init);
      [apply runes_valid | | exact Hs].
    exists [], []. repeat split; constructor. }
  destruct Hw as (b & _ & Hb & _ & -> & _).
  now rewrite runes_WriteRunes.
Qed.

Lemma loop_copied (l : list rune) :
  forall b,
    Forall (fun r => copied r = true) l ->
    clean.loop l (clean.mkVars clean.Regular b "")
    = (b ++ WriteRunes l)%string.
Proof.
  induction l as [|x l IH]; intros b H.
  - simpl. now rewrite append_empty_r.
  - inversion H as [|? ? Hx Hl]; subst.
    unfold copied in Hx. apply negb_true_iff, orb_false_iff in Hx as [Hs Hb].
    cbn [clean.loop clean.step clean.state]. unfold clean.regular.
    rewrite Hs, Hb. cbn [clean.buf clean.sp].
    rewrite (IH _ Hl). unfold WriteRune. simpl. now rewrite append_assoc.
Qed.

(** X13.  [Clean] returns unchanged a well-formed string that has no
    white space and no backslash and does not begin with '#'. *)
Theorem Clean_plain (rs : list rune) :
  Forall utf8.valid rs ->
  Forall (fun r => copied r = true) rs ->
  hd 0 rs <> r_hash ->
  Clean (WriteRunes rs) = WriteRunes rs.
Proof.
  intros Hv Hc Hh. unfold Clean. rewrite runes_WriteRunes by exact Hv.
  destruct rs as [|r rs]; [reflexivity|].
  simpl in Hh. apply Z.eqb_neq in Hh.
  destruct (loop_Initial r rs Hh) as [-> _].
  exact (loop_copied (r :: rs) "" Hc).
Qed.

Lemma Clean_plain_witness :
  WriteRunes (utf8.runes "doc/δ*.html") = "doc/δ*.html" /\
  Clean "doc/δ*.html" = "doc/δ*.html".
Proof.
  split; [reflexivity|].
  refine (Clean_plain (utf8.runes "doc/δ*.html") (runes_valid _) _ _).
  - repeat constructor.
  - discriminate.
Defined.

(** * More on insertion and matching *)

Lemma Forall_addable (globs : list string) :
  forallb addable globs = true <-> Forall basename_glob globs.
Proof.
  rewrite forallb_forall, Forall_forall. unfold basename_glob.
  split; intros H g Hg; apply addable_true, H, Hg.
Qed.

Lemma addAll_None (globs : list string) :
  forall lst lst',
    addAll lst globs = (lst', None) -> forallb addable globs = true.
Proof.
  induction globs as [|g globs IH]; intros lst lst' H; [reflexivity|].
  simpl in H |- *. destruct (addable g) eqn:Hg.
  - rewrite (add_addable _ _ Hg) in H. exact (IH _ _ H).
  - destruct (add_not_addable lst g Hg) as (e & He & _).
    rewrite He in H. discriminate.
Qed.

(** X14.  [Matcher.Add] returns nil exactly when every glob of the batch
    passes [Check] and has no path separator; the whole batch is then
    appended, in order, and the other fields are unchanged.  [Worker.Add]
    does the same on the local list. *)
Theorem Add_nil_iff (m : Matcher) (w : Worker) (globs : list string) :
  (snd (Matcher_Add m globs) = None <-> Forall basename_glob globs) /\
  (snd (Worker_Add w globs) = None <-> Forall basename_glob globs) /\
  (Forall basename_glob globs ->
   Matcher_Add m globs
   = (mkMatcher (ErrHandler m) (config m) (global m ++ globs), None) /\
   Worker_Add w globs
   = (mkWorker (cwd w) (local w ++ globs) (wglobal w), None)).
Proof.
  assert (Hok : forall lst, Forall basename_glob globs ->
                            addAll lst globs = (lst ++ globs, None)).
  { intros lst H. apply Forall_addable in H.
    pose proof (addAll_addable_prefix globs [] lst H) as E.
    rewrite app_nil_r in E. exact E. }
  unfold Matcher_Add, Worker_Add. repeat split.
  - destruct (addAll (global m) globs) as [l e] eqn:E. simpl. intros ->.
    apply Forall_addable. exact (addAll_None _ _ _ E).
  - intros H. now rewrite (Hok _ H).
  - destruct (addAll (local w) globs) as [l e] eqn:E. simpl. intros ->.
    apply Forall_addable. exact (addAll_None _ _ _ E).
  - intros H. now rewrite (Hok _ H).
  - now rewrite (Hok _ H).
  - now rewrite (Hok _ H).
Qed.

Lemma addAll_basename (globs : list string) :
  forall lst lst' err,
    addAll lst globs = (lst', err) ->
    Forall basename_glob lst -> Forall basename_glob lst'.
Proof.
  induction globs as [|g globs IH]; intros lst lst' err H Hl; simpl in H.
  - now injection H as <- _.
  - destruct (addable g) eqn:Hg.
    + rewrite (add_addable _ _ Hg) in H. apply (IH _ _ _ H).
      apply Forall_app. split; [exact Hl|].
      constructor; [now apply addable_true | constructor].
    + destruct (add_not_addable lst g Hg) as (e & He & _).
      rewrite He in H. now injection H as <- _.
Qed.

(** X15.  Whatever batches [Matcher.Add] is called with, and whatever it
    returns, every glob of the global list of a matcher made by [New] has
    passed [Check] and has no path separator. *)
Theorem Matcher_global_checked (config : string) (batches : list (list string)) :
  Forall basename_glob (global (Matcher_Adds (New config) batches)).
Proof.
  unfold Matcher_Adds.
  assert (H : Forall basename_glob (global (New config))) by constructor.
  revert H. generalize (New config).
  induction batches as [|b batches IH]; intros m H; [exact H|].
  simpl. apply IH. unfold Matcher_Add.
  destruct (addAll (global m) b) as [l e] eqn:E. simpl.
  exact (addAll_basename _ _ _ _ E H).
Qed.

Lemma matchAll_append (l1 l2 : list string) (s : string) :
  matchAll (l1 ++ l2) s
  = match matchAll l1 s with
    | Ret false => matchAll l2 s
    | r => r
    end.
Proof.
  induction l1 as [|p l1 IH]; [reflexivity|].
  simpl. destruct (match_ p s) as [[|]|e]; [reflexivity | exact IH | reflexivity].
Qed.

(** X16.  [matchAll] over two lists one after the other: the second list
    is tried when no glob of the first matches, and a match or a panic in
    the first list decides. *)
Theorem matchAll_app (l1 l2 : list string) (s : string) :
  matchAll (l1 ++ l2) s
  = match matchAll l1 s with
    | Ret false => matchAll l2 s
    | r => r
    end.
Proof. exact (matchAll_append l1 l2 s). Qed.

(** X17.  [matchAll] returns false exactly when every glob returns false,
    and true exactly when some glob matches and all globs before it return
    false. *)
Theorem matchAll_result (l : list string) (s : string) :
  (matchAll l s = Ret false <-> Forall (fun p => match_ p s = Ret false) l) /\
  (matchAll l s = Ret true <->
   exists l1 p l2, l = l1 ++ p :: l2 /\
                   Forall (fun q => match_ q s = Ret false) l1 /\
                   match_ p s = Ret true).
Proof.
  induction l as [|p l [IHf IHt]].
  - split; split.
    + constructor.
    + reflexivity.
    + discriminate.
    + intros (l1 & q & l2 & E & _). destruct l1; discriminate.
  - simpl. destruct (match_ p s) as [[|]|e] eqn:Hp.
    + split; split.
      * discriminate.
      * intros H. inversion H; congruence.
      * intros _. exists [], p, l. repeat split; [constructor | exact Hp].
      * reflexivity.
    + split; split.
      * intros H. constructor; [exact Hp | now apply IHf].
      * intros H. inversion H; subst. now apply IHf.
      * intros H. apply IHt in H. destruct H as (l1 & q & l2 & -> & Hl1 & Hq).
        exists (p :: l1), q, l2. repeat split; [constructor; assumption | exact Hq].
      * intros (l1 & q & l2 & E & Hl1 & Hq). apply IHt.
        destruct l1 as [|x l1]; simpl in E; injection E as -> ->; [congruence|].
        inversion Hl1; subst. now exists l1, q, l2.
    + split; split; try discriminate.
      * intros H. inversion H; congruence.
      * intros (l1 & q & l2 & E & Hl1 & Hq).
        destruct l1 as [|x l1]; simpl in E; injection E as -> ->; [congruence|].
        inversion Hl1; congruence.
Qed.

(** X18.  [Worker.Matches] is [matchAll] over the global list followed by
    the local list, on the cleaned path made absolute from the working
    directory; the test for the empty path has no effect.  After [Reset]
    only the global list is tried. *)
Theorem Worker_Matches_matchAll (w : Worker) (path : string) :
  Worker_Matches w path = matchAll (wglobal w ++ local w) (Worker_path w path) /\
  Worker_Matches (Worker_Reset w) path
  = matchAll (wglobal w) (Worker_path w path).
Proof.
  assert (H : forall w, Worker_Matches w path
                        = matchAll (wglobal w ++ local w) (Worker_path w path)).
  { intros w0. unfold Worker_Matches, Worker_path.
    rewrite Worker_Matches_guard_dead, matchAll_append.
    destruct (matchAll (wglobal w0) _) as [[|]|e]; try reflexivity.
    destruct (matchAll (local w0) _) as [[|]|e]; reflexivity. }
  split; [apply H|]. rewrite H. simpl. now rewrite app_nil_r.
Qed.

(** * More on loading files *)


(** The lines split at the first one that fails, if any. *)
Lemma lines_split (ls : list string) :
  Forall line_ok ls \/
  exists pre bad post pe,
    ls = pre ++ bad :: post /\ Forall line_ok pre /\
    Clean bad <> "" /\ Check (Clean bad) = Some pe.
Proof.
  induction ls as [|t ls IH]; [left; constructor|].
  destruct (String.eqb (Clean t) "") eqn:E.
  - apply String.eqb_eq in E.
    destruct IH as [IH | (pre & bad & post & pe & -> & Hpre & Hne & Hbad)].
    + left. constructor; [now left | exact IH].
    + right. exists (t :: pre), bad, post, pe.
      repeat split; auto. constructor; [now left | exact Hpre].
  - apply String.eqb_neq in E. destruct (Check (Clean t)) as [pe|] eqn:Hc.
    + right. exists [], t, ls, pe. repeat split; auto.
    + destruct IH as [IH | (pre & bad & post & pe & -> & Hpre & Hne & Hbad)].
      * left. constructor; [now right | exact IH].
      * right. exists (t :: pre), bad, post, pe.
        repeat split; auto. constructor; [now right | exact Hpre].
Qed.

Lemma addLines_all_ok (path base : string) (ls : list string)
      (final : option error) (line : Z) (w : Worker) :
  Forall line_ok ls ->
  addLines path base ls line final w
  = (mkWorker (cwd w) (local w ++ loaded base ls) (wglobal w), final).
Proof.
  intros H.
  pose proof (addLines_ok_prefix path base ls [] final line w H) as E.
  rewrite app_nil_r in E. exact E.
Qed.

Lemma addLines_first_bad (path base : string) (pre post : list string)
      (bad : string) (pe : BadPatternError) (final : option error)
      (line : Z) (w : Worker) :
  Forall line_ok pre -> Clean bad <> "" -> Check (Clean bad) = Some pe ->
  addLines path base (pre ++ bad :: post) line final w
  = (mkWorker (cwd w) (local w ++ loaded base pre) (wglobal w),
     Some (EBadPattern
             (mkBadPattern (Err pe) (Column pe)
                           (line + Z.of_nat (List.length pre) + 1) path))).
Proof.
  intros Hpre Hne Hbad.
  rewrite (addLines_ok_prefix _ _ _ _ _ _ _ Hpre).
  cbn [addLines]. apply String.eqb_neq in Hne. now rewrite Hne, Hbad.
Qed.

(** X19.  A file all of whose lines are empty after [Clean] (blank lines,
    comments) or valid is loaded whole: [Worker.AddFile] appends the
    patterns of all lines in order and returns the scanner's error. *)
Theorem AddFile_loads_all (os : OS) (w : Worker) (path abs : string) (f : file) :
  Abs os path = inl abs ->
  Open os abs = inl f ->
  Forall line_ok (lines f) ->
  Worker_AddFile os w path
  = (mkWorker (cwd w) (local w ++ loaded (filepath.Dir abs) (lines f)) (wglobal w),
     scanErr f).
Proof.
  intros Habs Hopen H. unfold Worker_AddFile. rewrite Habs, Hopen.
  now apply addLines_all_ok.
Qed.



(** X21.  When [Worker.AddFile] returns a [BadPatternError] for a file that
    it read to the end without a scanner error, the error names the path it
    was called with and a line of the file, counted from 1; that line is
    not empty after [Clean] and [Check] refuses it with this error at this
    column, and every line before it is empty after [Clean] or valid. *)
Theorem AddFile_error_line (os : OS) (w w' : Worker) (path abs : string)
        (f : file) (pe : BadPatternError) :
  Abs os path = inl abs ->
  Open os abs = inl f ->
  scanErr f = None ->
  Worker_AddFile os w path = (w', Some (EBadPattern pe)) ->
  File pe = path /\
  1 <= Line pe <= Z.of_nat (List.length (lines f)) /\
  exists pre bad post pe0,
    lines f = pre ++ bad :: post /\
    Line pe = Z.of_nat (List.length pre) + 1 /\
    Forall line_ok pre /\ Clean bad <> "" /\
    Check (Clean bad) = Some pe0 /\
    Err pe = Err pe0 /\ Column pe = Column pe0.
Proof.
  intros Habs Hopen Hscan H. unfold Worker_AddFile in H.
  rewrite Habs, Hopen in H.
  destruct (lines_split (lines f))
    as [Hok | (pre & bad & post & pe0 & Hl & Hpre & Hne & Hbad)].
  - rewrite (addLines_all_ok _ _ _ _ _ _ Hok), Hscan in H. discriminate.
  - rewrite Hl, (addLines_first_bad _ _ _ _ _ _ _ _ _ Hpre Hne Hbad) in H.
    injection H as _ <-. cbn [File Line Err Column].
    split; [reflexivity|]. split.
    + rewrite Hl, length_app. simpl List.length. lia.
    + exists pre, bad, post, pe0. repeat split; auto.
Qed.

(** * More on [NewWorker] *)




Lemma readConfigs_error (fuel : nat) (os : OS) (m : Matcher) :
  forall dir w e,
    readConfigs fuel os m dir w = Some (inr e) ->
    exists h e0 d w0 w1,
      ErrHandler m = Some h /\ IsNotExist e0 = false /\ h e0 = Some e /\
      Worker_AddFile os w0 (filepath.Join [d; config m]) = (w1, Some e0).
Proof.
  induction fuel as [|fuel IH]; intros dir w e H; [discriminate|].
  cbn [readConfigs] in H.
  destruct (Worker_AddFile os w (filepath.Join [dir; config m]))
    as [w1 err] eqn:Ea.
  destruct err as [e0|]; [destruct (ErrHandler m) as [h|] eqn:Eh|].
  - destruct (negb (IsNotExist e0)) eqn:En.
    + destruct (h e0) as [e1|] eqn:Ehe.
      * injection H as <-. exists h, e0, dir, w, w1.
        apply negb_true_iff in En. auto.
      * destruct (String.eqb _ "/"); [discriminate | exact (IH _ _ _ H)].
    + destruct (String.eqb _ "/"); [discriminate | exact (IH _ _ _ H)].
  - destruct (String.eqb _ "/"); [discriminate | exact (IH _ _ _ H)].
  - destruct (String.eqb _ "/"); [discriminate | exact (IH _ _ _ H)].
Qed.

(** X23.  [NewWorker] returns an error in two cases only: the directory is
    relative and the working directory of the process cannot be had, or
    [ErrHandler] is set and returned that error for an error of
    [Worker.AddFile] on a configuration file other than "file does not
    exist".  In particular it never returns ErrMissingDir of its own, and
    with a nil [ErrHandler] and an absolute directory it never fails. *)
Theorem NewWorker_error (fuel : nat) (os : OS) (m : Matcher) (dir : string)
        (e : error) :
  NewWorker fuel os m dir = Some (inr e) ->
  (filepath.IsAbs (filepath.Clean dir) = false /\ Getwd os = inr e) \/
  (exists h e0 d w0 w1,
      ErrHandler m = Some h /\ IsNotExist e0 = false /\ h e0 = Some e /\
      Worker_AddFile os w0 (filepath.Join [d; config m]) = (w1, Some e0)).
Proof.
  unfold NewWorker. intros H.
  rewrite Worker_Matches_guard_dead in H.
  destruct (filepath.IsAbs (filepath.Clean dir)) eqn:Ea; cbn [negb] in H.
  - right. destruct (negb (String.eqb (config m) "")); [|discriminate].
    exact (readConfigs_error _ _ _ _ _ _ H).
  - unfold Abs in H. rewrite Ea in H.
    destruct (Getwd os) as [wd|e'] eqn:Eg.
    + right. destruct (negb (String.eqb (config m) "")); [|discriminate].
      exact (readConfigs_error _ _ _ _ _ _ H).
    + left. injection H as <-. auto.
Qed.




(** * Matching never panics on globs without classes and escapes *)

Section MatchNoPanic.

Import filepath.

Lemma star_glob_cons (c : ascii) (p : string) :
  star_glob (String c p) = true ->
  isByte c "[" = false /\ isByte c "\" = false /\ star_glob p = true.
Proof.
  unfold star_glob, isByte. cbn [strings.ContainsByte].
  destruct (Ascii.eqb c "["); [discriminate|].
  destruct (Ascii.eqb c "\"); [rewrite andb_false_r; discriminate|].
  auto.
Qed.

Lemma matchChunkLoop_no_error (fuel : nat) :
  forall chunk s failed,
    star_glob chunk = true ->
    (String.length chunk < fuel)%nat ->
    matchChunkLoop fuel chunk s failed <> ChunkErr.
Proof.
  induction fuel as [|fuel IH]; intros chunk s failed Hg Hf; [lia|].
  destruct chunk as [|c chunk1]; cbn [matchChunkLoop].
  - destruct failed; discriminate.
  - destruct (star_glob_cons _ _ Hg) as (Hb & He & Hg1).
    simpl in Hf. rewrite Hb.
    destruct (isByte c "?").
    + destruct (failed || (str_length s =? 0)%nat).
      * apply IH; [exact Hg1 | lia].
      * destruct (utf8.DecodeRuneInString s). apply IH; [exact Hg1 | lia].
    + rewrite He.
      destruct (failed || (str_length s =? 0)%nat).
      * apply IH; [exact Hg1 | lia].
      * destruct s; apply IH; (exact Hg1 || lia).
Qed.

Lemma matchChunk_no_error (chunk s : string) :
  star_glob chunk = true -> matchChunk chunk s <> ChunkErr.
Proof.
  intros H. unfold matchChunk. apply matchChunkLoop_no_error; [exact H|].
  unfold str_length. lia.
Qed.

Lemma stripStars_spec (p : string) :
  (String.length (snd (stripStars p)) <= String.length p)%nat /\
  (star_glob p = true -> star_glob (snd (stripStars p)) = true) /\
  (fst (stripStars p) = false -> snd (stripStars p) = p) /\
  match snd (stripStars p) with
  | String c _ => isByte c "*" = false
  | EmptyString => True
  end.
Proof.
  induction p as [|c p (IH1 & IH2 & IH3 & IH4)]; [simpl; auto|].
  cbn [stripStars]. destruct (isByte c "*") eqn:E; cbn [fst snd].
  - repeat split.
    + simpl. lia.
    + intros H. apply IH2. now destruct (star_glob_cons _ _ H) as (_ & _ & ?).
    + discriminate.
    + exact IH4.
  - repeat split; auto. 
Qed.

Lemma scanSplit_spec (p : string) :
  forall inrange,
    star_glob p = true ->
    star_glob (fst (scanSplit p inrange)) = true /\
    star_glob (snd (scanSplit p inrange)) = true /\
    (String.length (snd (scanSplit p inrange)) <= String.length p)%nat /\
    (inrange = false ->
     match p with
     | String c _ =>
       isByte c "*" = false ->
       (String.length (snd (scanSplit p inrange)) < String.length p)%nat
     | EmptyString => True
     end).
Proof.
  induction p as [|c p IH]; intros inrange Hg; [simpl; auto|].
  destruct (star_glob_cons _ _ Hg) as (Hb & He & Hg1).
  cbn [scanSplit]. rewrite He, Hb.
  assert (Hcons : forall a, star_glob a = true -> star_glob (String c a) = true).
  { intros a Ha. unfold star_glob, isByte in *. cbn [strings.ContainsByte].
    now rewrite Hb, He. }
  destruct (isByte c "]").
  - destruct (IH false Hg1) as (H1 & H2 & H3 & _).
    destruct (scanSplit p false) as [a b]. cbn [fst snd] in *.
    repeat split; auto; simpl; lia.
  - destruct (isByte c "*" && negb inrange) eqn:Es.
    + cbn [fst snd]. repeat split; auto.
      intros -> Hc. apply andb_true_iff in Es. destruct Es. congruence.
    + destruct (IH inrange Hg1) as (H1 & H2 & H3 & _).
      destruct (scanSplit p inrange) as [a b]. cbn [fst snd] in *.
      repeat split; auto; simpl; lia.
Qed.

Lemma scanChunk_spec (pattern : string) :
  star_glob pattern = true -> pattern <> "" ->
  let '(_, chunk, rest) := scanChunk pattern in
  star_glob chunk = true /\ star_glob rest = true /\
  (String.length rest < String.length pattern)%nat.
Proof.
  intros Hg Hne. unfold scanChunk.
  destruct (stripStars_spec pattern) as (S1 & S2 & S3 & S4).
  destruct (stripStars pattern) as [star p] eqn:Es. cbn [fst snd] in *.
  destruct (scanSplit_spec p false (S2 Hg)) as (H1 & H2 & H3 & H4).
  destruct (scanSplit p false) as [chunk rest]. cbn [fst snd] in *.
  repeat split; auto.
  destruct star.
  - (* at least one star was removed *)
    assert (String.length p < String.length pattern)%nat; [|lia].
    destruct pattern as [|c q]; [contradiction|].
    cbn [stripStars] in Es. destruct (isByte c "*").
    + injection Es as <-. pose proof (stripStars_spec q) as (L & _). simpl. lia.
    + discriminate.
  - rewrite (S3 eq_refl) in *. destruct pattern as [|c q]; [contradiction|].
    apply (H4 eq_refl). exact S4.
Qed.

Lemma skipLoop_no_error (chunk : string) (lastChunk : bool) (name : string) :
  star_glob chunk = true -> skipLoop chunk lastChunk name <> inr None.
Proof.
  intros Hg. induction name as [|a name IH]; cbn [skipLoop]; [discriminate|].
  destruct (isSep a); [discriminate|].
  pose proof (matchChunk_no_error chunk name Hg) as Hm.
  destruct (matchChunk chunk name) as [| |t]; [contradiction | exact IH |].
  destruct (lastChunk && (0 <? str_length t)%nat); [exact IH | discriminate].
Qed.

Lemma checkRest_no_error (fuel : nat) :
  forall pattern, star_glob pattern = true -> checkRest fuel pattern <> None.
Proof.
  induction fuel as [|fuel IH]; intros pattern Hg; [discriminate|].
  cbn [checkRest]. destruct pattern as [|c q] eqn:Ep; [discriminate|].
  rewrite <- Ep in *.
  assert (Hne : pattern <> "") by (rewrite Ep; discriminate).
  pose proof (scanChunk_spec pattern Hg Hne) as Hs.
  destruct (scanChunk pattern) as [[star chunk] rest].
  destruct Hs as (Hc & Hr & _).
  pose proof (matchChunk_no_error chunk "" Hc) as Hm.
  destruct (matchChunk chunk ""); [contradiction | now apply IH | now apply IH].
Qed.

Lemma matchLoop_no_error (fuel : nat) :
  forall pattern name,
    star_glob pattern = true ->
    (String.length pattern < fuel)%nat ->
    matchLoop fuel pattern name <> None.
Proof.
  induction fuel as [|fuel IH]; intros pattern name Hg Hf; [lia|].
  cbn [matchLoop]. destruct pattern as [|c q] eqn:Ep; [discriminate|].
  rewrite <- Ep in *.
  assert (Hne : pattern <> "") by (rewrite Ep; discriminate).
  pose proof (scanChunk_spec pattern Hg Hne) as Hs.
  destruct (scanChunk pattern) as [[star chunk] rest].
  destruct Hs as (Hc & Hr & Hlen).
  destruct (star && String.eqb chunk ""); [discriminate|].
  assert (Hrec : forall t, matchLoop fuel rest t <> None)
    by (intros t; apply IH; [exact Hr | lia]).
  assert (Hstar : (if star
                   then match skipLoop chunk (str_length rest =? 0)%nat name with
                        | inl t => matchLoop fuel rest t
                        | inr None => None
                        | inr (Some _) => checkRest (S (str_length rest)) rest
                        end
                   else checkRest (S (str_length rest)) rest) <> None).
  { destruct star; [|now apply checkRest_no_error].
    pose proof (skipLoop_no_error chunk (str_length rest =? 0)%nat name Hc) as Hk.
    destruct (skipLoop chunk _ name) as [t|[u|]];
      [apply Hrec | now apply checkRest_no_error | contradiction]. }
  pose proof (matchChunk_no_error chunk name Hc) as Hm.
  destruct (matchChunk chunk name) as [| |t]; [contradiction | exact Hstar |].
  destruct ((str_length t =? 0)%nat || negb (str_length rest =? 0)%nat);
    [apply Hrec | exact Hstar].
Qed.

End MatchNoPanic.

Lemma match_no_panic (p s : string) :
  star_glob p = true -> exists b, match_ p s = Ret b.
Proof.
  intros Hg. unfold match_.
  destruct (String.eqb p ""); [now exists false|].
  match goal with
  | |- context [filepath.Match p ?x] =>
    pose proof (matchLoop_no_error (S (str_length p)) p x Hg
                                   ltac:(unfold str_length; lia)) as H;
    unfold filepath.Match; destruct (filepath.matchLoop _ p x) as [b|];
      [now exists b | contradiction]
  end.
Qed.

(** X25.  On globs without classes and escapes (no '[' and no '\\', so
    literals, '?' and '*' only) matching cannot fail: [filepath.Match]
    reports no syntax error, so [match] does not panic, and neither do
    [Matcher.Matches] and [Worker.Matches] when all stored globs are such. *)
Theorem Matches_no_panic (m : Matcher) (w : Worker) (path : string) :
  Forall (fun p => star_glob p = true) (global m) ->
  Forall (fun p => star_glob p = true) (wglobal w ++ local w) ->
  (exists b, Matcher_Matches m path = Ret b) /\
  (exists b, Worker_Matches w path = Ret b).
Proof.
  assert (H : forall l s, Forall (fun p => star_glob p = true) l ->
                          exists b, matchAll l s = Ret b).
  { intros l s. induction 1 as [|p l Hp _ IH]; [now exists false|].
    simpl. destruct (match_no_panic p s Hp) as ([|] & ->);
      [now exists true | exact IH]. }
  intros Hm Hw. split; [apply H, Hm|].
  unfold Worker_Matches. rewrite Worker_Matches_guard_dead.
  apply Forall_app in Hw. destruct Hw as [Hg Hl].
  match goal with
  | |- context [matchAll (wglobal w) ?x] =>
    destruct (H (wglobal w) x Hg) as ([|] & ->); [now exists true|];
      destruct (H (local w) x Hl) as ([|] & ->); eauto
  end.
Qed.

(** * Base names *)

Section BaseName.

Import filepath.

Lemma afterLastSep_no_sep (s : string) :
  strings.ContainsByte (afterLastSep s) "/" = false.
Proof.
  induction s as [|c s IH]; [reflexivity|].
  cbn [afterLastSep]. destruct (strings.ContainsByte s "/") eqn:E; [exact IH|].
  unfold isSep. destruct (Ascii.eqb c "/") eqn:Ec; [exact E|].
  cbn [strings.ContainsByte]. now rewrite Ec, E.
Qed.

Lemma no_sep_afterLastSep (s : string) :
  strings.ContainsByte s "/" = false -> afterLastSep s = s.
Proof.
  destruct s as [|c s]; [reflexivity|]. cbn [strings.ContainsByte afterLastSep].
  intros H. apply orb_false_iff in H as [Hc Hs]. unfold isSep.
  now rewrite Hs, Hc.
Qed.

Lemma no_sep_stripTrailingSep (s : string) :
  strings.ContainsByte s "/" = false -> stripTrailingSep s = s.
Proof.
  induction s as [|c s IH]; [reflexivity|]. cbn [strings.ContainsByte].
  intros H. apply orb_false_iff in H as [Hc Hs].
  cbn [stripTrailingSep]. rewrite (IH Hs). unfold isSep. rewrite Hc.
  now destruct s.
Qed.

Lemma Base_no_sep (s : string) :
  s <> "" -> strings.ContainsByte s "/" = false -> Base s = s.
Proof.
  intros Hne H. unfold Base. apply String.eqb_neq in Hne. rewrite Hne.
  rewrite (no_sep_stripTrailingSep _ H), (no_sep_afterLastSep _ H).
  now rewrite Hne.
Qed.

Lemma Base_cases (s : string) :
  Base s = "." \/ Base s = "/" \/
  (Base s <> "" /\ strings.ContainsByte (Base s) "/" = false).
Proof.
  unfold Base. destruct (String.eqb s ""); [now left|].
  destruct (String.eqb (afterLastSep (stripTrailingSep s)) "") eqn:E;
    [right; now left|].
  right. right. split; [now apply String.eqb_neq | apply afterLastSep_no_sep].
Qed.

Lemma Base_Base (s : string) : Base (Base s) = Base s.
Proof.
  destruct (Base_cases s) as [-> | [-> | [Hne H]]]; try reflexivity.
  now apply Base_no_sep.
Qed.

End BaseName.

(** X26.  A glob without a path separator sees only the last element of
    the path: [match] gives the same result on a path and on its base
    name, and so does [Matcher.Matches], all of whose globs are such. *)
Theorem match_base_name (p s : string) (m : Matcher) :
  strings.ContainsByte p "/" = false ->
  match_ p (filepath.Base s) = match_ p s /\
  Matcher_Matches m (filepath.Base s) = Matcher_Matches m s.
Proof.
  intros H. unfold Matcher_Matches, match_.
  rewrite H. cbn [negb]. now rewrite Base_Base.
Qed.

Lemma match_base_name_witness :
  strings.ContainsByte "*.html" "/" = false /\
  match_ "*.html" (filepath.Base "doc/git.html") = match_ "*.html" "doc/git.html" /\
  match_ "*.html" "doc/git.html" = Ret true.
Proof.
  split; [reflexivity|]. split; [|reflexivity].
  exact (proj1 (match_base_name "*.html" "doc/git.html" (New "") eq_refl)).
Defined.

(** * The walk of [NewWorker] towards the root ends *)

Section CleanRooted.

Import filepath.

Lemma substring_0_length (w : nat) :
  forall s, (w <= String.length s)%nat ->
            String.length (substring 0 w s) = w.
Proof.
  induction w as [|w IH]; intros [|c s] H; simpl in *; try reflexivity; try lia.
  rewrite IH; [reflexivity | lia].
Qed.

Lemma substring_0_rooted (w : nat) (s : string) :
  (1 <= w)%nat -> rooted_path s -> rooted_path (substring 0 w s).
Proof.
  intros Hw (t & ->). destruct w as [|w]; [lia|].
  now exists (substring 0 w t).
Qed.

Lemma backtrack_range (out : string) (w : nat) :
  (1 <= w)%nat -> (1 <= backtrack out 1 w <= w)%nat.
Proof.
  induction w as [|w IH]; intros H; [lia|].
  cbn [backtrack]. destruct ((1 <? S w)%nat && negb (sepAt out (S w))) eqn:E;
    [|lia].
  apply andb_true_iff in E. destruct E as [E _]. apply Nat.ltb_lt in E.
  specialize (IH ltac:(lia)). lia.
Qed.

Lemma rooted_length (s : string) : rooted_path s -> (1 <= String.length s)%nat.
Proof. intros (t & ->). simpl. lia. Qed.

Lemma rooted_append (s t : string) : rooted_path s -> rooted_path (s ++ t).
Proof. intros (u & ->). now exists (u ++ t)%string. Qed.

Lemma element_spec (p : string) :
  let '(e, rest) := element p in
  p = (e ++ rest)%string /\ atEnd rest = true.
Proof.
  induction p as [|c p IH]; [simpl; auto|].
  cbn [element]. destruct (isSep c) eqn:E.
  - split; [reflexivity|]. simpl. exact E.
  - destruct (element p) as [e rest]. destruct IH as [-> Hr].
    split; [reflexivity | exact Hr].
Qed.

Lemma element_append (a b : string) :
  element (a ++ String "/" b)
  = (fst (element a), (snd (element a) ++ String "/" b)%string).
Proof.
  induction a as [|c a IH]; [reflexivity|].
  cbn [append element]. destruct (isSep c); [reflexivity|].
  rewrite IH. now destruct (element a).
Qed.

Lemma clean_bound_atEnd (p out : string) :
  atEnd p = true ->
  clean_bound p out = (String.length out + String.length p)%nat.
Proof.
  unfold clean_bound. destruct p as [|c p]; simpl; [lia|].
  intros ->. simpl. lia.
Qed.

Lemma clean_bound_le (p out : string) :
  (clean_bound p out <= String.length out + String.length p + 1)%nat.
Proof.
  unfold clean_bound. destruct p as [|c p]; [lia|].
  destruct (negb (isSep c) && negb (String.length out =? 1)%nat); lia.
Qed.

(** The output of the loop for a rooted path stays rooted and is no longer
    than what is written and what is still to be read. *)
Lemma cleanLoop_rooted (fuel : nat) :
  forall p out,
    rooted_path out ->
    rooted_path (cleanLoop fuel true p out 1) /\
    (String.length (cleanLoop fuel true p out 1) <= clean_bound p out)%nat.
Proof.
  induction fuel as [|fuel IH]; intros p out Hout.
  - simpl. split; [exact Hout|]. unfold clean_bound. lia.
  - pose proof (rooted_length _ Hout) as Hlen.
    destruct p as [|c p1]; [simpl; split; [exact Hout | unfold clean_bound; lia]|].
    cbn [cleanLoop]. destruct (isSep c) eqn:Ec.
    { destruct (IH p1 out Hout) as [Hr Hl]. split; [exact Hr|].
      pose proof (clean_bound_le p1 out).
      assert (clean_bound (String c p1) out
              = String.length out + S (String.length p1))%nat
        by (unfold clean_bound; rewrite Ec; simpl; lia).
      lia. }
    destruct (isDot c && atEnd p1) eqn:Ed.
    { apply andb_true_iff in Ed. destruct Ed as [_ Ha].
      destruct (IH p1 out Hout) as [Hr Hl]. split; [exact Hr|].
      rewrite (clean_bound_atEnd _ _ Ha) in Hl.
      assert (String.length out + S (String.length p1)
              <= clean_bound (String c p1) out)%nat
        by (unfold clean_bound; simpl; lia).
      lia. }
    assert (Hb : (String.length out + S (String.length p1)
                  + (if negb (String.length out =? 1)%nat then 1 else 0)
                  = clean_bound (String c p1) out)%nat).
    { unfold clean_bound. rewrite Ec. reflexivity. }
    destruct p1 as [|c1 p2].
    + (* a last element of one byte *)
      cbn [negb andb orb].
      match goal with
      | |- context [cleanLoop fuel true "" ?o 1] =>
        assert (Ho : rooted_path o /\
                     (String.length o <= clean_bound (String c "") out)%nat)
      end.
      { rewrite <- Hb. unfold str_length. rewrite orb_false_r.
        destruct (String.length out =? 1)%nat eqn:E1;
          cbn [negb]; rewrite ?str_length_append; simpl.
        - split; [now apply rooted_append | lia].
        - split; [now apply rooted_append, rooted_append | lia]. }
      destruct Ho as [Ho1 Ho2]. destruct (IH "" _ Ho1) as [Hr Hl].
      split; [exact Hr|]. unfold clean_bound in Hl at 1. simpl in Hl. lia.
    + destruct (isDot c && isDot c1 && atEnd p2) eqn:Edd.
      * (* a ".." element *)
        apply andb_true_iff in Edd. destruct Edd as [_ Ha].
        unfold str_length.
        destruct (1 <? String.length out)%nat eqn:E1.
        -- apply Nat.ltb_lt in E1.
           pose proof (backtrack_range out (String.length out - 1) ltac:(lia)) as Hw.
           set (w := backtrack out 1 (String.length out - 1)) in *.
           assert (Ho : rooted_path (substring 0 w out))
             by (apply substring_0_rooted; [lia | exact Hout]).
           destruct (IH p2 _ Ho) as [Hr Hl]. split; [exact Hr|].
           rewrite (clean_bound_atEnd _ _ Ha) in Hl.
           rewrite substring_0_length in Hl by lia.
           rewrite <- Hb. simpl. lia.
        -- cbn [negb]. destruct (IH p2 out Hout) as [Hr Hl].
           split; [exact Hr|]. rewrite (clean_bound_atEnd _ _ Ha) in Hl.
           rewrite <- Hb. simpl. lia.
      * (* an element *)
        cbn [negb andb orb]. unfold str_length.
        pose proof (element_spec (String c (String c1 p2))) as He.
        destruct (element (String c (String c1 p2))) as [e rest].
        destruct He as [He Ha].
        match goal with
        | |- context [cleanLoop fuel true rest ?o 1] =>
          assert (Ho : rooted_path o /\
                       (String.length o + String.length rest
                        <= clean_bound (String c (String c1 p2)) out)%nat)
        end.
        { rewrite <- Hb.
          assert (Hlen2 : (String.length e + String.length rest
                           = S (S (String.length p2)))%nat).
          { rewrite <- str_length_append, <- He. reflexivity. }
          rewrite orb_false_r.
          destruct (String.length out =? 1)%nat eqn:E1;
            cbn [negb]; rewrite ?str_length_append; simpl.
          - split; [now apply rooted_append | lia].
          - split; [now apply rooted_append, rooted_append | lia]. }
        destruct Ho as [Ho1 Ho2]. destruct (IH rest _ Ho1) as [Hr Hl].
        split; [exact Hr|]. rewrite (clean_bound_atEnd _ _ Ha) in Hl. lia.
Qed.

End CleanRooted.

Section CleanParent.

Import filepath.

Lemma cleanLoop_nil (fuel : nat) (rooted : bool) (out : string) (dotdot : nat) :
  cleanLoop fuel rooted "" out dotdot = out.
Proof. now destruct fuel. Qed.

Lemma atEnd_append (a b : string) :
  atEnd (a ++ String "/" b) = true -> atEnd a = true.
Proof. now destruct a. Qed.

Lemma element_head (c : ascii) (p : string) :
  isSep c = false ->
  exists e, fst (element (String c p)) = String c e /\
            (String.length (snd (element (String c p))) <= String.length p)%nat.
Proof.
  intros Hc. cbn [element]. rewrite Hc.
  pose proof (element_spec p) as Hs. destruct (element p) as [e rest].
  destruct Hs as [-> _]. exists e. split; [reflexivity|].
  simpl. rewrite str_length_append. lia.
Qed.

(** The ".." that ends a rooted path removes the last element written:
    the output is the root, or shorter than the bound for the path
    without it. *)
Lemma cleanLoop_parent (fuel : nat) :
  forall p0 out,
    rooted_path out ->
    (String.length p0 + 2 <= fuel)%nat ->
    rooted_path (cleanLoop fuel true (p0 ++ "/..") out 1) /\
    (String.length (cleanLoop fuel true (p0 ++ "/..") out 1) = 1%nat \/
     String.length (cleanLoop fuel true (p0 ++ "/..") out 1)
     < clean_bound p0 out)%nat.
Proof.
  induction fuel as [|fuel IH]; intros p0 out Hout Hf; [lia|].
  pose proof (rooted_length _ Hout) as Hlen.
  destruct p0 as [|c p0'].
  - (* the path is read: "/.." is left *)
    destruct fuel as [|fuel']; [simpl in Hf; lia|].
    change ("" ++ "/..")%string with "/..".
    cbn [cleanLoop isSep isDot atEnd Ascii.eqb Bool.eqb andb negb].
    unfold str_length.
    destruct (1 <? String.length out)%nat eqn:E1.
    + apply Nat.ltb_lt in E1. rewrite cleanLoop_nil.
      pose proof (backtrack_range out (String.length out - 1) ltac:(lia)) as Hw.
      split; [apply substring_0_rooted; [lia | exact Hout]|].
      right. rewrite substring_0_length by lia.
      unfold clean_bound. lia.
    + apply Nat.ltb_ge in E1. rewrite cleanLoop_nil.
      split; [exact Hout|]. left. lia.
  - simpl in Hf.
    change (String c p0' ++ "/..")%string with (String c (p0' ++ "/..")).
    cbn [cleanLoop]. destruct (isSep c) eqn:Ec.
    { destruct (IH p0' out Hout ltac:(lia)) as [Hr Hl]. split; [exact Hr|].
      pose proof (clean_bound_le p0' out).
      assert (clean_bound (String c p0') out
              = String.length out + S (String.length p0'))%nat
        by (unfold clean_bound; rewrite Ec; simpl; lia).
      lia. }
    assert (Hb : (String.length out + S (String.length p0')
                  + (if negb (String.length out =? 1)%nat then 1 else 0)
                  = clean_bound (String c p0') out)%nat).
    { unfold clean_bound. rewrite Ec. reflexivity. }
    destruct (isDot c && atEnd (p0' ++ "/..")) eqn:Ed.
    { apply andb_true_iff in Ed. destruct Ed as [_ Ha].
      apply atEnd_append in Ha.
      destruct (IH p0' out Hout ltac:(lia)) as [Hr Hl]. split; [exact Hr|].
      rewrite (clean_bound_atEnd _ _ Ha) in Hl. lia. }
    (* the element branch, common to what follows *)
    assert (Helem :
      let '(e, rest) := element (String c (p0' ++ "/..")) in
      let out1 := if (true && negb (str_length out =? 1)%nat)
                     || (negb true && negb (str_length out =? 0)%nat)
                  then (out ++ "/")%string else out in
      rooted_path (cleanLoop fuel true rest (out1 ++ e) 1) /\
      (String.length (cleanLoop fuel true rest (out1 ++ e) 1) = 1%nat \/
       String.length (cleanLoop fuel true rest (out1 ++ e) 1)
       < clean_bound (String c p0') out)%nat).
    { change (String c (p0' ++ "/..")) with (String c p0' ++ "/..")%string.
      rewrite element_append.
      destruct (element_head c p0' Ec) as (e0 & He0 & Hrest).
      pose proof (element_spec (String c p0')) as Hs.
      destruct (element (String c p0')) as [e rest0]. cbn [fst snd] in *.
      destruct Hs as [Hsplit Ha]. subst e.
      assert (Hlen2 : (S (String.length e0) + String.length rest0
                       = S (String.length p0'))%nat).
      { apply (f_equal String.length) in Hsplit.
        rewrite str_length_append in Hsplit. simpl in Hsplit. lia. }
      cbn [negb andb orb]. rewrite orb_false_r. unfold str_length.
      match goal with
      | |- context [cleanLoop fuel true _ ?o 1] =>
        assert (Ho : rooted_path o /\
                     (String.length o + String.length rest0
                      = clean_bound (String c p0') out)%nat)
      end.
      { rewrite <- Hb.
        destruct (String.length out =? 1)%nat eqn:E1;
          cbn [negb]; rewrite ?str_length_append; simpl.
        - split; [now apply rooted_append | lia].
        - split; [now apply rooted_append, rooted_append | lia]. }
      destruct Ho as [Ho1 Ho2].
      destruct (IH rest0 _ Ho1 ltac:(lia)) as [Hr Hl].
      split; [exact Hr|]. rewrite (clean_bound_atEnd _ _ Ha) in Hl. lia. }
    destruct p0' as [|c1 p0''].
    + (* the last element, of one byte *)
      change ("" ++ "/..")%string with "/.." in *.
      cbn [isDot isSep atEnd Ascii.eqb Bool.eqb andb] in Helem |- *.
      rewrite andb_false_r. cbn [andb].
      destruct (element (String c "/..")) as [e rest]. exact Helem.
    + change (String c1 p0'' ++ "/..")%string
        with (String c1 (p0'' ++ "/..")) in *.
      cbv beta iota.
      destruct (isDot c && isDot c1 && atEnd (p0'' ++ "/..")) eqn:Edd.
      * apply andb_true_iff in Edd. destruct Edd as [_ Ha].
        apply atEnd_append in Ha. unfold str_length. simpl in Hf.
        destruct (1 <? String.length out)%nat eqn:E1.
        -- apply Nat.ltb_lt in E1.
           pose proof (backtrack_range out (String.length out - 1) ltac:(lia)) as Hw.
           set (w := backtrack out 1 (String.length out - 1)) in *.
           assert (Ho : rooted_path (substring 0 w out))
             by (apply substring_0_rooted; [lia | exact Hout]).
           destruct (IH p0'' _ Ho ltac:(lia)) as [Hr Hl]. split; [exact Hr|].
           rewrite (clean_bound_atEnd _ _ Ha) in Hl.
           rewrite substring_0_length in Hl by lia.
           rewrite <- Hb. simpl. lia.
        -- cbn [negb]. destruct (IH p0'' out Hout ltac:(lia)) as [Hr Hl].
           split; [exact Hr|]. rewrite (clean_bound_atEnd _ _ Ha) in Hl.
           rewrite <- Hb. simpl. lia.
      * destruct (element (String c (String c1 (p0'' ++ "/..")))) as [e rest].
        exact Helem.
Qed.

End CleanParent.

Section WalkEnds.

Import filepath.

Lemma IsAbs_rooted (d : string) : IsAbs d = true <-> rooted_path d.
Proof.
  split.
  - destruct d as [|c q]; [discriminate|]. simpl. unfold isSep. intros H.
    apply Ascii.eqb_eq in H. subst c. now exists q.
  - intros (t & ->). reflexivity.
Qed.

(** [filepath.Clean] keeps a rooted path rooted and does not make it
    longer. *)
Lemma Clean_rooted (d : string) :
  rooted_path d ->
  rooted_path (Clean d) /\ (String.length (Clean d) <= String.length d)%nat.
Proof.
  intros (q & ->). unfold Clean. cbn [isSep Ascii.eqb Bool.eqb andb drop].
  destruct (cleanLoop_rooted (S (str_length (String "/" q))) q "/")
    as [Hr Hl]; [now exists ""|].
  pose proof (rooted_length _ Hr) as Hlen. unfold str_length in *.
  destruct (String.length (cleanLoop _ true q "/" 1) =? 0)%nat eqn:E;
    [apply Nat.eqb_eq in E; lia|].
  split; [exact Hr|].
  assert (clean_bound q "/" = S (String.length q))
    by (unfold clean_bound; destruct q as [|c q]; simpl;
        rewrite ?andb_false_r; simpl; lia).
  change (String.length (String "/" q)) with (S (String.length q)) in *.
  lia.
Qed.

(** The directory that the loop of [NewWorker] goes on with is the root or
    is shorter. *)
Lemma parent_shorter (d : string) :
  rooted_path d ->
  rooted_path (Clean (Join [d; ".."])) /\
  (Clean (Join [d; ".."]) = "/" \/
   (String.length (Clean (Join [d; ".."])) < String.length d)%nat).
Proof.
  intros (q & ->).
  assert (Ey : exists y, Join [String "/" q; ".."] = y /\ rooted_path y /\
                         (String.length y = 1%nat \/
                          (String.length y < S (String.length q))%nat)).
  { cbn [Join String.eqb Ascii.eqb Bool.eqb andb joinSep append].
    unfold Clean. cbn [isSep Ascii.eqb Bool.eqb andb drop].
    change (String "/" (q ++ "/" ++ ".."))%string
      with (String "/" (q ++ "/.."))%string.
    destruct (cleanLoop_parent (S (str_length (String "/" (q ++ "/.."))))
                               q "/") as [Hr Hl]; [now exists ""| |].
    { unfold str_length. simpl. rewrite str_length_append. simpl. lia. }
    pose proof (rooted_length _ Hr) as Hlen. unfold str_length in *.
    destruct (String.length (cleanLoop _ true (q ++ "/..") "/" 1) =? 0)%nat
      eqn:E; [apply Nat.eqb_eq in E; lia|].
    eexists. split; [reflexivity|]. split; [exact Hr|].
    assert (clean_bound q "/" = S (String.length q))
      by (unfold clean_bound; destruct q as [|c q]; simpl;
          rewrite ?andb_false_r; simpl; lia).
    lia. }
  destruct Ey as (y & -> & Hy & Hl).
  destruct (Clean_rooted y Hy) as [Hr Hle]. split; [exact Hr|].
  destruct Hl as [Hl | Hl].
  - left. destruct Hy as (t & ->). destruct t; [reflexivity | simpl in Hl; lia].
  - right. simpl. lia.
Qed.

End WalkEnds.

Lemma readConfigs_returns (os : OS) (m : Matcher) (fuel : nat) :
  forall dir w,
    rooted_path dir -> (String.length dir <= fuel)%nat ->
    exists r, readConfigs fuel os m dir w = Some r.
Proof.
  induction fuel as [|fuel IH]; intros dir w Hd Hf.
  - pose proof (rooted_length _ Hd). lia.
  - cbn [readConfigs].
    destruct (Worker_AddFile os w (filepath.Join [dir; config m])) as [w1 err].
    match goal with
    | |- exists r, match ?a with _ => _ end = _ =>
      destruct a as [e|]; [now exists (inr e)|]
    end.
    destruct (parent_shorter dir Hd) as [Hr [-> | Hl]].
    + now exists (inl w1).
    + destruct (String.eqb _ "/"); [now exists (inl w1)|].
      apply IH; [exact Hr | lia].
Qed.

Lemma readConfigs_more_fuel (os : OS) (m : Matcher) (fuel : nat) :
  forall dir w r fuel',
    readConfigs fuel os m dir w = Some r -> (fuel <= fuel')%nat ->
    readConfigs fuel' os m dir w = Some r.
Proof.
  induction fuel as [|fuel IH]; intros dir w r fuel' H Hf; [discriminate|].
  destruct fuel' as [|fuel']; [lia|].
  cbn [readConfigs] in H |- *.
  destruct (Worker_AddFile os w (filepath.Join [dir; config m])) as [w1 err].
  match type of H with
  | match ?a with _ => _ end = _ => destruct a; [exact H|]
  end.
  destruct (String.eqb _ "/"); [exact H|].
  apply (IH _ _ _ _ H). lia.
Qed.

(** X27.  The walk of [NewWorker] towards the root ends: for an absolute
    directory, or a relative one when the working directory of the process
    is absolute, the loop over the parent directories reaches its [break]
    (or the handler aborts it) within as many iterations as the directory
    has bytes, and [NewWorker] returns; more iterations allowed do not
    change what it returns. *)
Theorem NewWorker_returns (fuel : nat) (os : OS) (m : Matcher) (dir : string) :
  (filepath.IsAbs (filepath.Clean dir) = true /\
   (String.length (filepath.Clean dir) <= fuel)%nat) \/
  (exists wd, Getwd os = inl wd /\ filepath.IsAbs wd = true /\
              (String.length wd + 1 + String.length (filepath.Clean dir)
               <= fuel)%nat) ->
  exists r, forall fuel', (fuel <= fuel')%nat ->
                          NewWorker fuel' os m dir = Some r.
Proof.
  intros H. unfold NewWorker. rewrite Worker_Matches_guard_dead.
  assert (E : exists d,
             (if negb (filepath.IsAbs (filepath.Clean dir))
              then Abs os (filepath.Clean dir)
              else inl (filepath.Clean dir)) = inl d /\
             rooted_path d /\ (String.length d <= fuel)%nat).
  { destruct (filepath.IsAbs (filepath.Clean dir)) eqn:Ea; cbn [negb].
    - exists (filepath.Clean dir). split; [reflexivity|].
      split; [now apply IsAbs_rooted|].
      destruct H as [[_ H] | (wd & _ & _ & H)]; lia.
    - destruct H as [[H _] | (wd & Hwd & Hab & Hf)]; [discriminate|].
      unfold Abs. rewrite Ea, Hwd.
      apply IsAbs_rooted in Hab. destruct Hab as (t & ->).
      cbn [filepath.Join String.eqb Ascii.eqb Bool.eqb andb filepath.joinSep].
      eexists. split; [reflexivity|].
      destruct (Clean_rooted (String "/" t ++ "/" ++ filepath.Clean dir))
        as [Hr Hl]; [now eexists|].
      split; [exact Hr|].
      rewrite !str_length_append in Hl. simpl in Hl, Hf. simpl. lia. }
  destruct E as (d & -> & Hd & Hf).
  destruct (negb (String.eqb (config m) "")).
  - destruct (readConfigs_returns os m fuel d (mkWorker d [] (global m)) Hd Hf)
      as (r & Hr).
    exists r. intros fuel' Hle. exact (readConfigs_more_fuel _ _ _ _ _ _ _ Hr Hle).
  - eexists. intros fuel' _. reflexivity.
Qed.

Lemma NewWorker_returns_witness :
  exists r, forall fuel', (6 <= fuel')%nat ->
                          NewWorker fuel' os_root (New "match.conf") "/a/b/../b"
                          = Some r.
Proof.
  apply NewWorker_returns. left. split; [reflexivity | simpl; lia].
Defined.

(** * Witnesses and the text of errors *)

Lemma AddFile_loads_all_witness :
  Worker_AddFile os_root (mkWorker "/a" ["x"] ["g"]) "/a/match.conf"
  = (mkWorker "/a" ["x"; "aglob"] ["g"], None).
Proof.
  refine (AddFile_loads_all os_root (mkWorker "/a" ["x"] ["g"])
            "/a/match.conf" "/a/match.conf" (mkFile ["aglob"] None)
            eq_refl eq_refl _).
  constructor; [right; reflexivity | constructor].
Defined.


Lemma AddFile_error_line_witness :
  File (mkBadPattern ErrNegativeRange 3 5 "d/match.conf") = "d/match.conf" /\
  1 <= Line (mkBadPattern ErrNegativeRange 3 5 "d/match.conf") <= 6.
Proof.
  pose proof (AddFile_error_line os_example (mkWorker "/d" ["x"] [])
                (mkWorker "/d" ["x"; "foo"; "/d/doc/*.html"] [])
                "d/match.conf" "/d/match.conf"
                (mkFile ["# globs"; "foo"; ""; "doc/*.html"; "[z-a]x"; "bar"]
                        None)
                (mkBadPattern ErrNegativeRange 3 5 "d/match.conf")
                eq_refl eq_refl eq_refl eq_refl) as (H1 & H2 & _).
  exact (conj H1 H2).
Defined.


Lemma NewWorker_error_witness :
  NewWorker 3 os_example (mkMatcher (Some pass_error) "match.conf" []) "/d"
  = Some (inr (EBadPattern
                 (mkBadPattern ErrNegativeRange 3 5 "/d/match.conf"))) /\
  ((filepath.IsAbs (filepath.Clean "/d") = false /\
    Getwd os_example
    = inr (EBadPattern (mkBadPattern ErrNegativeRange 3 5 "/d/match.conf"))) \/
   (exists h e0 d w0 w1,
       Some pass_error = Some h /\ IsNotExist e0 = false /\
       h e0 = Some (EBadPattern
                      (mkBadPattern ErrNegativeRange 3 5 "/d/match.conf")) /\
       Worker_AddFile os_example w0 (filepath.Join [d; "match.conf"])
       = (w1, Some e0))).
Proof.
  split; [reflexivity|].
  exact (NewWorker_error 3 os_example
           (mkMatcher (Some pass_error) "match.conf" []) "/d" _ eq_refl).
Defined.


Lemma Matches_no_panic_witness :
  (exists b, Matcher_Matches (mkMatcher None "" ["*.html"; "a?c"]) "doc/x.html"
             = Ret b) /\
  (exists b, Worker_Matches (mkWorker "/d" ["/d/doc/*"] ["*.html"]) "doc/x.html"
             = Ret b).
Proof.
  apply (Matches_no_panic (mkMatcher None "" ["*.html"; "a?c"])
                          (mkWorker "/d" ["/d/doc/*"] ["*.html"]) "doc/x.html");
    repeat constructor.
Defined.

Lemma Check_outside_file (glob : string) (pe : BadPatternError) :
  Check glob = Some pe -> Line pe = -1 /\ File pe = "".
Proof.
  unfold Check. intros H.
  destruct (check.loop (utf8.runes glob) (-1) check.init)
    as [[column v]|pe'] eqn:Hl.
  - destruct (check.state v); simpl in H; try discriminate;
      injection H as <-; split; reflexivity.
  - injection H as ->.
    destruct (loop_fails _ _ _ _ Hl) as (pre & r & post & v' & _ & _ & _ & Hpe).
    rewrite Hpe. split; reflexivity.
Qed.

(** X28.  The text of an error of [Check] has the form without a file:
    "column", the column in decimal, a colon and the text of the error
    variable. *)
Theorem Error_of_Check (glob : string) (pe : BadPatternError) :
  Check glob = Some pe ->
  Error pe
  = ("column " ++ itoa (Column pe) ++ ": " ++ message (Err pe))%string.
Proof.
  intros H. destruct (Check_outside_file glob pe H) as [Hl _].
  unfold Error. now rewrite Hl.
Qed.

Lemma Error_of_Check_witness :
  Check "[z-a]" = Some (check.give 3 ErrNegativeRange) /\
  Error (check.give 3 ErrNegativeRange) = "column 3: negative range".
Proof.
  split; [reflexivity|].
  exact (Error_of_Check "[z-a]" (check.give 3 ErrNegativeRange) eq_refl).
Defined.

(** X29.  The text of a [BadPatternError] that [Worker.AddFile] returns for
    a file read without a scanner error has the form with a file: the path
    it was called with, the line and the column in decimal, and the text of
    the error variable, with colons between. *)
Theorem Error_of_AddFile (os : OS) (w w' : Worker) (path abs : string)
        (f : file) (pe : BadPatternError) :
  Abs os path = inl abs ->
  Open os abs = inl f ->
  scanErr f = None ->
  Worker_AddFile os w path = (w', Some (EBadPattern pe)) ->
  Error pe
  = (path ++ ":" ++ itoa (Line pe) ++ ":" ++ itoa (Column pe) ++ ": "
     ++ message (Err pe))%string.
Proof.
  intros Habs Hopen Hscan H. unfold Worker_AddFile in H.
  rewrite Habs, Hopen in H.
  destruct (lines_split (lines f))
    as [Hok | (pre & bad & post & pe0 & Hl & Hpre & Hne & Hbad)].
  - rewrite (addLines_all_ok _ _ _ _ _ _ Hok), Hscan in H. discriminate.
  - rewrite Hl, (addLines_first_bad _ _ _ _ _ _ _ _ _ Hpre Hne Hbad) in H.
    injection H as _ <-. unfold Error. cbn [File Line Err Column].
    match goal with
    | |- context [?a <? 0] => destruct (Z.ltb_spec a 0); [lia|]
    end.
    reflexivity.
Qed.

Lemma Error_of_AddFile_witness :
  Error (mkBadPattern ErrNegativeRange 3 5 "d/match.conf")
  = "d/match.conf:5:3: negative range".
Proof.
  exact (Error_of_AddFile os_example (mkWorker "/d" ["x"] [])
           (mkWorker "/d" ["x"; "foo"; "/d/doc/*.html"] [])
           "d/match.conf" "/d/match.conf"
           (mkFile ["# globs"; "foo"; ""; "doc/*.html"; "[z-a]x"; "bar"] None)
           (mkBadPattern ErrNegativeRange 3 5 "d/match.conf")
           eq_refl eq_refl eq_refl eq_refl).
Defined.

